(** * MyPack: the keyed history list [IList] and [MathUtils.clamp]

    A shallow embedding of two classes of the pack's scripting API:

    - [IList] (the bounded per-key history list): an object with the fields
      [maxSize], [data] (a JavaScript [Map] from keys to arrays) and
      [most_recent_key].  Arrays are JavaScript objects: the map holds
      references to them, [get] hands such a reference to the caller, and
      [push] mutates the referenced array in place.  The embedding therefore
      keeps a heap of arrays next to the object, and every method is a
      function from the state before the call to an outcome (a returned value
      or a thrown exception) and the state after it.

    - [MathUtils.clamp]: a pure function on JavaScript values.  Numbers are
      IEEE 754 binary64 values, modelled by Rocq's primitive floats. *)

From Stdlib Require Import ZArith Floats.
From stdpp Require Import base option countable gmap list strings.

Local Open Scope string_scope.
Local Open Scope list_scope.

(** ** JavaScript values *)

(** The primitive values that the two classes can be handed. *)
Inductive jsval : Type :=
| VUndefined
| VNull
| VBool (b : bool)
| VNum (x : float)
| VStr (s : string).

(** The values used as keys of an [IList].  The methods document their key
    parameter as a string; [most_recent_key] starts as [null], and a parameter
    that is left out is [undefined].  A [Map] compares such keys by value. *)
Inductive key : Type :=
| KUndefined
| KNull
| KStr (s : string).

Global Instance key_eq_dec : EqDecision key.
Proof. solve_decision. Defined.

Definition key_to_option (k : key) : option (option string) :=
  match k with
  | KUndefined => None
  | KNull => Some None
  | KStr s => Some (Some s)
  end.

Definition key_of_option (o : option (option string)) : key :=
  match o with
  | None => KUndefined
  | Some None => KNull
  | Some (Some s) => KStr s
  end.

Global Instance key_countable : Countable key.
Proof. apply (inj_countable' key_to_option key_of_option). by intros []. Defined.

(** [ToBoolean] on keys: [undefined], [null] and the empty string are falsy,
    every other string is truthy. *)
Definition truthy (k : key) : bool :=
  match k with
  | KUndefined | KNull => false
  | KStr EmptyString => false
  | KStr (String _ _) => true
  end.

(** The JavaScript operator [a || b]. *)
Definition or_else (a b : key) : key := if truthy a then a else b.

(** A parameter with a default value takes the default exactly when the
    argument is [undefined] (left out, or passed as [undefined]). *)
Definition default_param (arg dflt : key) : key :=
  match arg with
  | KUndefined => dflt
  | _ => arg
  end.

(** ** Exceptions and outcomes *)

Inductive exn : Type :=
| Error (message : string)
| TypeError (message : string).

(** The exception is a [TypeError], whatever its message. *)
Definition is_TypeError (e : exn) : Prop := ∃ message, e = TypeError message.

Inductive outcome (A : Type) : Type :=
| Return (a : A)
| Throw (e : exn).
Global Arguments Return {A} a.
Global Arguments Throw {A} e.

(** ** The bounded per-key history list *)

Module IList.

(** Identity of an array object. *)
Definition loc : Type := positive.

(** The object's fields, together with the heap of the arrays that exist.
    [maxSize] is the constructor's argument; [new Array(maxSize)] wants an
    array length, a natural number. *)
Record t : Type := mk {
  heap : gmap loc (list jsval);
  maxSize : nat;
  data : gmap key loc;
  most_recent_key : key
}.

Definition set_heap (h : gmap loc (list jsval)) (s : t) : t :=
  mk h (maxSize s) (data s) (most_recent_key s).

Definition set_data (d : gmap key loc) (s : t) : t :=
  mk (heap s) (maxSize s) d (most_recent_key s).

Definition set_most_recent_key (k : key) (s : t) : t :=
  mk (heap s) (maxSize s) (data s) k.

(** A method body: it runs on a state and ends by returning or throwing.  The
    assignments made before a [throw] stay. *)
Definition js (A : Type) : Type := t → outcome A * t.

Definition ret {A} (a : A) : js A := λ s, (Return a, s).

Definition throw {A} (e : exn) : js A := λ s, (Throw e, s).

Definition bind {A B} (m : js A) (f : A → js B) : js B :=
  λ s, match m s with
       | (Return a, s') => f a s'
       | (Throw e, s') => (Throw e, s')
       end.

Declare Scope js_scope.
Delimit Scope js_scope with js.
Bind Scope js_scope with js.
Notation "x <- m ; f" := (bind m (λ x, f))
  (at level 20, m at level 100, f at level 200, only parsing) : js_scope.
Notation "m ;; f" := (bind m (λ _, f))
  (at level 100, f at level 200, only parsing, right associativity) : js_scope.
Local Open Scope js_scope.

Definition this_maxSize : js nat := λ s, (Return (maxSize s), s).

Definition this_most_recent_key : js key := λ s, (Return (most_recent_key s), s).

Definition assign_most_recent_key (k : key) : js unit :=
  λ s, (Return (), set_most_recent_key k s).

(** *** Arrays *)

(** [new Array(n).fill(v)]: a new array object. *)
Definition Array_new_fill (n : nat) (v : jsval) : js loc :=
  λ s, let l := fresh (dom (heap s)) in
       (Return l, set_heap (<[l := replicate n v]> (heap s)) s).

(** An array literal written by the caller. *)
Definition Array_literal (xs : list jsval) : js loc :=
  λ s, let l := fresh (dom (heap s)) in
       (Return l, set_heap (<[l := xs]> (heap s)) s).

(** A reference always denotes a live object in JavaScript; the model has to
    say something for a reference that is not in the heap, and it answers as
    JavaScript does for a method call on [undefined]. *)
Definition not_an_object {A} : js A :=
  throw (TypeError "Cannot read properties of undefined").

(** [a.push(v)] *)
Definition Array_push (l : loc) (v : jsval) : js unit :=
  λ s, match heap s !! l with
       | Some xs => (Return (), set_heap (<[l := xs ++ [v]]> (heap s)) s)
       | None => not_an_object s
       end.

(** [a.shift()] (the removed element is not used by the class) *)
Definition Array_shift (l : loc) : js unit :=
  λ s, match heap s !! l with
       | Some xs => (Return (), set_heap (<[l := tail xs]> (heap s)) s)
       | None => not_an_object s
       end.

(** [a.length] *)
Definition Array_length (l : loc) : js nat :=
  λ s, match heap s !! l with
       | Some xs => (Return (length xs), s)
       | None => not_an_object s
       end.

(** *** The map [this.data] *)

Definition data_has (k : key) : js bool :=
  λ s, (Return (bool_decide (is_Some (data s !! k))), s).

(** [this.data.get(k)]; [None] is [undefined]. *)
Definition data_get (k : key) : js (option loc) :=
  λ s, (Return (data s !! k), s).

Definition data_set (k : key) (l : loc) : js unit :=
  λ s, (Return (), set_data (<[k := l]> (data s)) s).

Definition data_delete (k : key) : js bool :=
  λ s, (Return (bool_decide (is_Some (data s !! k))), set_data (delete k (data s)) s).

Definition data_clear : js unit :=
  λ s, (Return (), set_data ∅ s).

(** *** The class *)

(** [new IList(maxSize)], in a heap without arrays. *)
Definition new (maxSize : nat) : t := mk ∅ maxSize ∅ KNull.

Definition get (key : key) : js loc :=
  assign_most_recent_key key ;;
  o <- data_get key ;
  match o with
  | Some l => ret l
  | None => n <- this_maxSize ; Array_new_fill n (VNum 0)
  end.

Definition push (value : jsval) (key : key) : js unit :=
  mrk <- this_most_recent_key ;
  let key := default_param key mrk in
  assign_most_recent_key key ;;
  mrk <- this_most_recent_key ;
  if negb (truthy mrk) && negb (truthy key) then
    throw (Error "Key must be provided or set before using set method.")
  else
    b <- data_has key ;
    if b then
      o <- data_get key ;
      match o with
      | Some currentData =>
          Array_push currentData value ;;
          len <- Array_length currentData ;
          n <- this_maxSize ;
          (if bool_decide (n < len) then Array_shift currentData else ret ()) ;;
          data_set key currentData
      | None => not_an_object
      end
    else
      n <- this_maxSize ;
      a <- Array_new_fill n (VNum 0) ;
      data_set key a ;;
      o <- data_get key ;
      match o with
      | Some a' => Array_push a' value
      | None => not_an_object
      end.

(** The result is [Some b] for the boolean [b] and [None] for [undefined]. *)
Definition removeData (key : key) : js (option bool) :=
  let key := default_param key KNull in
  if truthy key then
    b <- data_delete key ; ret (Some b)
  else
    data_clear ;; ret None.

Definition has (key : key) : js bool :=
  mrk <- this_most_recent_key ;
  let key := default_param key mrk in
  if negb (truthy key) && negb (truthy mrk) then
    throw (Error "Key must be provided or set before using has method.")
  else
    data_has (or_else key mrk).

Definition getSize (key : key) : js nat :=
  mrk <- this_most_recent_key ;
  let key := default_param key mrk in
  if negb (truthy key) && negb (truthy mrk) then
    throw (Error "Key must be provided or set before using getSize method.")
  else
    b <- data_has key ;
    if b then
      o <- data_get key ;
      match o with
      | Some a => Array_length a
      | None => not_an_object
      end
    else ret 0.

(** [map()] returns [this.data].  The list has one [Map] object from the
    constructor on, the field [data] of the state, so the result is given by
    what that [Map] holds at the call.  It is the list's own [Map] that the
    caller gets: what the caller writes to it later is a write to [data]
    ([Map_set], [Map_delete] and [Map_clear] below). *)
Definition map : js (gmap key loc) := λ s, (Return (data s), s).

Definition rawGet (key : key) : js (option loc) := data_get key.

(** The store is documented as a map from keys to arrays, so the value
    written is a reference to an array. *)
Definition rawSet (key : key) (value : loc) : js unit := data_set key value.

Definition clear : js unit :=
  data_clear ;; assign_most_recent_key KNull.

Definition getMostRecentKey : js key := this_most_recent_key.

(** *** Observations and runs *)

(** The sequence stored for a key: the content of the array that the map
    refers to. *)
Definition stored (s : t) (k : key) : option (list jsval) :=
  data s !! k ≫= λ l, heap s !! l.

(** The calls of a caller: the methods of the class, and an array literal
    of its own to hand to [rawSet].  (A caller can also write to an array it
    got from [get] or [rawGet], or to the map it got from [map]; such writes
    go past the class, as [rawSet] does, and are not among the calls: they
    are among the [action]s below.) *)
Inductive call : Type :=
| CGet (key : key)
| CPush (value : jsval) (key : key)
| CRemoveData (key : key)
| CHas (key : key)
| CGetSize (key : key)
| CMap
| CRawGet (key : key)
| CRawSet (key : key) (value : loc)
| CClear
| CGetMostRecentKey
| CArrayLiteral (xs : list jsval).

(** The state after a call; a caller that catches the exception goes on with
    the state the throwing method left. *)
Definition after (c : call) (s : t) : t :=
  match c with
  | CGet k => (get k s).2
  | CPush v k => (push v k s).2
  | CRemoveData k => (removeData k s).2
  | CHas k => (has k s).2
  | CGetSize k => (getSize k s).2
  | CMap => (map s).2
  | CRawGet k => (rawGet k s).2
  | CRawSet k l => (rawSet k l s).2
  | CClear => (clear s).2
  | CGetMostRecentKey => (getMostRecentKey s).2
  | CArrayLiteral xs => (Array_literal xs s).2
  end.

Definition run (cs : list call) (s : t) : t := foldl (λ s c, after c s) s cs.

Definition is_rawSet (c : call) : bool :=
  match c with
  | CRawSet _ _ => true
  | _ => false
  end.

(** The array an entry holds after one more value went through the
    existing-key branch of [push]. *)
Definition appended (n : nat) (xs : list jsval) (v : jsval) : list jsval :=
  if bool_decide (n < length (xs ++ [v])) then tail (xs ++ [v]) else xs ++ [v].

(** Every entry refers to an array of the heap, of length [maxSize + 1]. *)
Definition entries_full (s : t) : Prop :=
  ∀ k l, data s !! k = Some l →
    ∃ xs, heap s !! l = Some xs ∧ length xs = maxSize s + 1.

(** No two keys refer to the same array. *)
Definition entries_unshared (s : t) : Prop :=
  ∀ k1 k2 l, data s !! k1 = Some l → data s !! k2 = Some l → k1 = k2.

(** The calls that delete the entry of [k], if there is one. *)
Definition removes (k : key) (c : call) : bool :=
  match c with
  | CRemoveData k' =>
      negb (truthy (default_param k' KNull)) || bool_decide (k' = k)
  | CClear => true
  | _ => false
  end.

(** [push] of the values [vs], in this order, with the key [k]. *)
Definition pushes (vs : list jsval) (k : key) (s : t) : t :=
  foldl (λ s v, (push v k s).2) s vs.

(** What the caller reads in the array that [get k] returns. *)
Definition read (k : key) (s : t) : option (list jsval) :=
  match get k s with
  | (Return l, s') => heap s' !! l
  | (Throw _, _) => None
  end.

(** The calls that do not assign [most_recent_key]. *)
Definition keeps_key (c : call) : bool :=
  match c with
  | CGet _ | CPush _ _ | CClear => false
  | _ => true
  end.

Definition is_push (c : call) : bool :=
  match c with
  | CPush _ _ => true
  | _ => false
  end.

(** *** What a caller can do past the methods

    [get] and [rawGet] return the stored array itself, and [map()] returns
    [this.data] itself.  A caller that holds such a reference can change the
    list without calling a method of the class:
    [l.get(k).push(x)], [l.get(k).length = 0], [l.map().set(k, a)],
    [l.map().delete(k)], [l.map().clear()]. *)

(** Any write of the caller to the array [a] it holds ([push], [pop],
    [shift], an assignment to an index or to [length], ...): the array then
    holds [xs]. *)
Definition Array_write (a : loc) (xs : list jsval) : js unit :=
  λ s, match heap s !! a with
       | Some _ => (Return (), set_heap (<[a := xs]> (heap s)) s)
       | None => not_an_object s
       end.

(** [l.map().set(k, a)], [l.map().delete(k)] and [l.map().clear()]: the
    [Map] that [map()] returned is [this.data]. *)
Definition Map_set (k : key) (a : loc) : js unit := data_set k a.

Definition Map_delete (k : key) : js bool := data_delete k.

Definition Map_clear : js unit := data_clear.

(** One step of a caller: a call of a method, or a write to an array or to
    the map it holds. *)
Inductive action : Type :=
| Method (c : call)
| ArrayWrite (a : loc) (xs : list jsval)
| MapSet (key : key) (a : loc)
| MapDelete (key : key)
| MapClear.

Definition perform (a : action) (s : t) : t :=
  match a with
  | Method c => after c s
  | ArrayWrite a xs => (Array_write a xs s).2
  | MapSet k a => (Map_set k a s).2
  | MapDelete k => (Map_delete k s).2
  | MapClear => (Map_clear s).2
  end.

Definition performs (acts : list action) (s : t) : t :=
  foldl (λ s a, perform a s) s acts.

(** The actions that make an array of the caller's choice the entry of a
    key: [rawSet], and [set] on the map. *)
Definition stores_array (a : action) : bool :=
  match a with
  | Method (CRawSet _ _) | MapSet _ _ => true
  | _ => false
  end.

(** The actions that leave the arrays to [push]: the methods other than
    [rawSet], and [delete] and [clear] on the map.  With them, the only
    arrays in the map are those that [push] made, and only [push] writes to
    them. *)
Definition arrays_by_push (a : action) : bool :=
  match a with
  | Method c => negb (is_rawSet c)
  | MapDelete _ | MapClear => true
  | ArrayWrite _ _ | MapSet _ _ => false
  end.

(** Every entry refers to an array of the heap. *)
Definition entries_allocated (s : t) : Prop :=
  ∀ k l, data s !! k = Some l → is_Some (heap s !! l).

(** *** The list without references

    The same class with the sequences themselves in the map, instead of
    references to arrays: what the methods other than [rawSet] do to the
    sequence of each key. *)
Record plain : Type := mkPlain {
  plain_maxSize : nat;
  plain_data : gmap key (list jsval);
  plain_key : key
}.

Definition plain_new (maxSize : nat) : plain := mkPlain maxSize ∅ KNull.

Definition plain_after (c : call) (a : plain) : plain :=
  match c with
  | CGet k => mkPlain (plain_maxSize a) (plain_data a) k
  | CPush v karg =>
      let k := default_param karg (plain_key a) in
      if truthy k then
        let xs := match plain_data a !! k with
                  | Some xs => appended (plain_maxSize a) xs v
                  | None => replicate (plain_maxSize a) (VNum 0) ++ [v]
                  end in
        mkPlain (plain_maxSize a) (<[k := xs]> (plain_data a)) k
      else mkPlain (plain_maxSize a) (plain_data a) k
  | CRemoveData karg =>
      let k := default_param karg KNull in
      if truthy k then mkPlain (plain_maxSize a) (delete k (plain_data a)) (plain_key a)
      else mkPlain (plain_maxSize a) ∅ (plain_key a)
  | CClear => mkPlain (plain_maxSize a) ∅ KNull
  | _ => a
  end.

(** The caller's [delete] and [clear] on the map, on the plain list.  A
    write to an array and [set] on the map are about references, which the
    plain list does not have: they have no counterpart and leave it as it
    is. *)
Definition plain_perform (a : action) (p : plain) : plain :=
  match a with
  | Method c => plain_after c p
  | MapDelete k => mkPlain (plain_maxSize p) (delete k (plain_data p)) (plain_key p)
  | MapClear => mkPlain (plain_maxSize p) ∅ (plain_key p)
  | ArrayWrite _ _ | MapSet _ _ => p
  end.

Definition plain_performs (acts : list action) (p : plain) : plain :=
  foldl (λ p a, plain_perform a p) p acts.

(** The state [s] holds what the plain list [a] holds. *)
Definition represents (s : t) (a : plain) : Prop :=
  maxSize s = plain_maxSize a ∧
  most_recent_key s = plain_key a ∧
  ∀ k, stored s k = plain_data a !! k.

End IList.

(** ** [MathUtils.clamp] *)

Module MathUtils.

Local Open Scope float_scope.

(** [typeof v === 'number'] *)
Definition typeof_number (v : jsval) : bool :=
  match v with
  | VNum _ => true
  | _ => false
  end.

(** [isNaN] on a number. *)
Definition isNaN (x : float) : bool := is_nan x.

(** [a > b] on numbers: true when [b < a], false as soon as one is [NaN]. *)
Definition gt (a b : float) : bool := b <? a.

Definition is_pos_zero (x : float) : bool :=
  match classify x with
  | PZero => true
  | _ => false
  end.

Definition is_neg_zero (x : float) : bool :=
  match classify x with
  | NZero => true
  | _ => false
  end.

(** One step of [Math.max]: [+0] counts as larger than [-0]. *)
Definition max_step (highest number : float) : float :=
  if is_pos_zero number && is_neg_zero highest then number
  else if highest <? number then number
  else highest.

(** One step of [Math.min]: [-0] counts as smaller than [+0]. *)
Definition min_step (lowest number : float) : float :=
  if is_neg_zero number && is_pos_zero lowest then number
  else if number <? lowest then number
  else lowest.

(** [Math.max(a, b)]: [NaN] when an argument is; otherwise the largest,
    starting from minus infinity. *)
Definition Math_max (a b : float) : float :=
  if is_nan a || is_nan b then nan
  else max_step (max_step neg_infinity a) b.

(** [Math.min(a, b)]: [NaN] when an argument is; otherwise the smallest,
    starting from plus infinity. *)
Definition Math_min (a b : float) : float :=
  if is_nan a || is_nan b then nan
  else min_step (min_step infinity a) b.

Definition clamp (value min max : jsval) : outcome jsval :=
  if negb (typeof_number value) || negb (typeof_number min) || negb (typeof_number max) then
    Throw (TypeError "All parameters must be numbers.")
  else
    match value, min, max with
    | VNum value, VNum min, VNum max =>
        if isNaN value || isNaN min || isNaN max then
          Throw (Error "Parameters cannot be NaN.")
        else if gt min max then
          Throw (Error "Minimum value cannot be greater than maximum value.")
        else
          Return (VNum (Math_max min (Math_min max value)))
    | _, _, _ =>
        (* not reached: the three are numbers *)
        Throw (TypeError "All parameters must be numbers.")
    end.

(** *** The order of the numbers

    A number that is not [NaN] is placed in the triples of integers, ordered
    lexicographically: the infinities at the two ends, both zeros in the
    middle, and a finite number by its sign, then its exponent, then its
    mantissa. *)
Definition rank (x : spec_float) : Z * Z * Z :=
  match x with
  | S754_nan => (0, 0, 0)
  | S754_zero _ => (0, 0, 0)
  | S754_infinity true => (-2, 0, 0)
  | S754_infinity false => (2, 0, 0)
  | S754_finite true m e => (-1, - e, Z.neg m)
  | S754_finite false m e => (1, e, Z.pos m)
  end%Z.

Definition lex_compare (x y : Z * Z * Z) : comparison :=
  match (x.1.1 ?= y.1.1)%Z with
  | Eq => match (x.1.2 ?= y.1.2)%Z with
          | Eq => (x.2 ?= y.2)%Z
          | c => c
          end
  | c => c
  end.

Definition lex_lt (x y : Z * Z * Z) : Prop :=
  (x.1.1 < y.1.1 ∨ (x.1.1 = y.1.1 ∧ (x.1.2 < y.1.2 ∨ (x.1.2 = y.1.2 ∧ x.2 < y.2))))%Z.

Global Instance lex_lt_dec x y : Decision (lex_lt x y).
Proof. unfold lex_lt. apply _. Defined.

Definition lex_max (x y : Z * Z * Z) : Z * Z * Z := if decide (lex_lt x y) then y else x.

Definition lex_min (x y : Z * Z * Z) : Z * Z * Z := if decide (lex_lt y x) then y else x.

(** The place of a number. *)
Definition place (x : float) : Z * Z * Z := rank (Prim2SF x).

(** [r] is [value] clamped into the range from [min] to [max]: it lies in
    the range, it is [value] when [value] lies in the range, and it is the
    bound that [value] is beyond otherwise ([=?] is the equality of numbers,
    for which the two zeros are equal). *)
Definition is_clamped (value min max r : float) : Prop :=
  (min <=? r) = true ∧ (r <=? max) = true ∧
  ((min <=? value) = true → (value <=? max) = true → (r =? value) = true) ∧
  ((value <? min) = true → (r =? min) = true) ∧
  ((max <? value) = true → (r =? max) = true).

(** *** [MathUtils.distance3d]

    The function is called with six numbers or with two objects that have
    the properties [x], [y] and [z]. *)

(** An argument: a primitive value, or an object, given by the values of
    its properties [x], [y] and [z] ([undefined] for a property it does not
    have). *)
Inductive arg : Type :=
| Prim (v : jsval)
| Object (x y z : jsval).

(** [typeof a === 'object'], which holds for [null] too. *)
Definition typeof_object (a : arg) : bool :=
  match a with
  | Object _ _ _ => true
  | Prim VNull => true
  | Prim _ => false
  end.

(** [a !== null] *)
Definition not_null (a : arg) : bool :=
  match a with
  | Prim VNull => false
  | _ => true
  end.

(** The number that [a] is, when [typeof a === 'number']. *)
Definition as_number (a : arg) : option float :=
  match a with
  | Prim (VNum x) => Some x
  | _ => None
  end.

(** The properties of an object that is not [null]; a primitive value has
    no property [x], [y] or [z]. *)
Definition get_x (a : arg) : arg :=
  match a with
  | Object x _ _ => Prim x
  | Prim _ => Prim VUndefined
  end.

Definition get_y (a : arg) : arg :=
  match a with
  | Object _ y _ => Prim y
  | Prim _ => Prim VUndefined
  end.

Definition get_z (a : arg) : arg :=
  match a with
  | Object _ _ z => Prim z
  | Prim _ => Prim VUndefined
  end.

(** The parameter at position [i]: [undefined] when the call has fewer
    arguments. *)
Definition parameter (arguments : list arg) (i : nat) : arg :=
  nth i arguments (Prim VUndefined).

Section distance3d.

(** [Math.sqrt] and [Math.pow] on numbers, as the engine computes them. *)
Variable Math_sqrt : float → float.
Variable Math_pow : float → float → float.

Definition distance3d (arguments : list arg) : outcome float :=
  let x1 := parameter arguments 0 in
  let y1 := parameter arguments 1 in
  let z1 := parameter arguments 2 in
  let x2 := parameter arguments 3 in
  let y2 := parameter arguments 4 in
  let z2 := parameter arguments 5 in
  let '(x1, y1, z1, x2, y2, z2) :=
    if typeof_object x1 && not_null x1 && typeof_object y1 && not_null y1 &&
       Nat.eqb (length arguments) 2
    then
      let a := x1 in
      let b := y1 in
      (get_x a, get_y a, get_z a, get_x b, get_y b, get_z b)
    else (x1, y1, z1, x2, y2, z2) in
  match as_number x1, as_number y1, as_number z1,
        as_number x2, as_number y2, as_number z2 with
  | Some x1, Some y1, Some z1, Some x2, Some y2, Some z2 =>
      if isNaN x1 || isNaN y1 || isNaN z1 || isNaN x2 || isNaN y2 || isNaN z2 then
        Throw (Error "Coordinates cannot be NaN.")
      else
        Return (Math_sqrt (Math_pow (x2 - x1) 2 + Math_pow (y2 - y1) 2 +
                           Math_pow (z2 - z1) 2))
  | _, _, _, _, _, _ =>
      (* [typeof] of one of the six is not ['number'] *)
      Throw (TypeError "All coordinates must be numbers.")
  end.

End distance3d.

End MathUtils.

(** ** Numbers from values *)

(** The primitive values that an arithmetic operator or [isNaN] can be
    handed: those of [jsval], BigInts and Symbols.  (An object is converted
    by calling its own [valueOf] or [toString]; what such a call does is not
    in the pack, and objects are left out.) *)
Inductive primitive : Type :=
| Val (v : jsval)
| BigInt (n : Z)
| Symbol (description : string).

Coercion Val : jsval >-> primitive.

(** The result of a subtraction: a number, or a BigInt. *)
Inductive numeric : Type :=
| Number (x : float)
| BigIntValue (n : Z).

(** One step after another; an exception ends the evaluation. *)
Definition and_then {A B} (o : outcome A) (f : A → outcome B) : outcome B :=
  match o with
  | Return a => f a
  | Throw e => Throw e
  end.

(** [a || b] on conditions: [b] is evaluated only when [a] is false. *)
Definition or_ (a b : outcome bool) : outcome bool :=
  match a with
  | Return true => Return true
  | Return false => b
  | Throw e => Throw e
  end.

Section ToNumber.

Local Open Scope float_scope.

(** The number that a string is converted to, as the engine computes it. *)
Variable StringToNumber : string → float.

(** The number that a value of [jsval] is converted to. *)
Definition number_of (v : jsval) : float :=
  match v with
  | VUndefined => nan
  | VNull => 0
  | VBool true => 1
  | VBool false => 0
  | VNum x => x
  | VStr s => StringToNumber s
  end.

(** The conversion to a number throws a [TypeError] on a BigInt and on a
    Symbol (the messages are the engine's). *)
Definition ToNumber (p : primitive) : outcome float :=
  match p with
  | Val v => Return (number_of v)
  | BigInt _ => Throw (TypeError "Cannot convert a BigInt value to a number")
  | Symbol _ => Throw (TypeError "Cannot convert a Symbol value to a number")
  end.

(** The conversion of an operand of [-]: a BigInt stays a BigInt. *)
Definition ToNumeric (p : primitive) : outcome numeric :=
  match p with
  | Val v => Return (Number (number_of v))
  | BigInt n => Return (BigIntValue n)
  | Symbol _ => Throw (TypeError "Cannot convert a Symbol value to a number")
  end.

(** The global [isNaN], which converts its argument to a number. *)
Definition global_isNaN (p : primitive) : outcome bool :=
  and_then (ToNumber p) (λ x, Return (is_nan x)).

(** [a - b]: both operands are converted, the left one first; a number and
    a BigInt do not mix. *)
Definition minus (a b : primitive) : outcome numeric :=
  and_then (ToNumeric a) (λ x,
  and_then (ToNumeric b) (λ y,
    match x, y with
    | Number x, Number y => Return (Number (x - y))
    | BigIntValue m, BigIntValue n => Return (BigIntValue (m - n))
    | _, _ => Throw (TypeError "Cannot mix BigInt and other types, use explicit conversions")
    end)).

(** [a ** e] for a number [e], as the pack writes it with [e = 2]: a BigInt
    base does not mix with it.  [exponentiate] is the operator on two
    numbers. *)
Definition power (exponentiate : float → float → float) (a : numeric) (e : float) :
    outcome float :=
  match a with
  | Number x => Return (exponentiate x e)
  | BigIntValue _ =>
      Throw (TypeError "Cannot mix BigInt and other types, use explicit conversions")
  end.

(** The first of the arguments, in their order, that a check with [isNaN]
    rejects: one that converts to [NaN] gives the error of the check, one
    that cannot be converted gives the exception of the conversion. *)
Fixpoint first_rejected (ps : list primitive) : option exn :=
  match ps with
  | [] => None
  | p :: ps =>
      match ToNumber p with
      | Throw e => Some e
      | Return x =>
          if is_nan x then Some (Error "Coordinates cannot be NaN.")
          else first_rejected ps
      end
  end.

End ToNumber.

(** [null] with the number 0 in its place. *)
Definition null_as_zero (p : primitive) : primitive :=
  match p with
  | Val VNull => Val (VNum 0)
  | _ => p
  end.

(** [p] is a value of [jsval]: neither a BigInt nor a Symbol. *)
Definition is_Val (p : primitive) : bool :=
  match p with
  | Val _ => true
  | _ => false
  end.

(** ** [FastMath] *)

Module FastMath.

Local Open Scope float_scope.

Section FastMath.

(** [Math.sqrt] and the operator [**] on numbers, as the engine computes
    them. *)
Variable Math_sqrt : float → float.
Variable exponentiate : float → float → float.
Variable StringToNumber : string → float.

Local Abbreviation isNaN := (global_isNaN StringToNumber).
Local Abbreviation sub := (minus StringToNumber).
Local Abbreviation pow := (power exponentiate).

Definition distance2d (x1 y1 x2 y2 : primitive) : outcome float :=
  and_then (or_ (or_ (or_ (isNaN x1) (isNaN y1)) (isNaN x2)) (isNaN y2)) (λ b,
  if b then
    Throw (Error "Coordinates cannot be NaN.")
  else
    and_then (sub x2 x1) (λ dx, and_then (pow dx 2) (λ dx2,
    and_then (sub y2 y1) (λ dy, and_then (pow dy 2) (λ dy2,
    Return (Math_sqrt (dx2 + dy2))))))).

Definition distance3d (x1 y1 z1 x2 y2 z2 : primitive) : outcome float :=
  and_then (or_ (or_ (or_ (or_ (or_ (isNaN x1) (isNaN y1)) (isNaN z1)) (isNaN x2))
                   (isNaN y2)) (isNaN z2)) (λ b,
  if b then
    Throw (Error "Coordinates cannot be NaN.")
  else
    and_then (sub x2 x1) (λ dx, and_then (pow dx 2) (λ dx2,
    and_then (sub y2 y1) (λ dy, and_then (pow dy 2) (λ dy2,
    and_then (sub z2 z1) (λ dz, and_then (pow dz 2) (λ dz2,
    Return (Math_sqrt (dx2 + dy2 + dz2))))))))).

End FastMath.

End FastMath.

(** ** The distances of [IVec2] and [IVec3]

    The constructors store what they are given; the coordinates are
    documented as numbers. *)

Module IVec2.

Record t : Type := mk { x : primitive; y : primitive }.

Section distance.

Local Open Scope float_scope.

Variable Math_sqrt : float → float.
Variable exponentiate : float → float → float.
Variable StringToNumber : string → float.

Local Abbreviation sub := (minus StringToNumber).
Local Abbreviation pow := (power exponentiate).

Definition distance (this : t) (x y : primitive) : outcome float :=
  and_then (sub x (IVec2.x this)) (λ dx, and_then (pow dx 2) (λ dx2,
  and_then (sub y (IVec2.y this)) (λ dy, and_then (pow dy 2) (λ dy2,
  Return (Math_sqrt (dx2 + dy2)))))).

End distance.

End IVec2.

Module IVec3.

Record t : Type := mk { x : primitive; y : primitive; z : primitive }.

Section distance.

Local Open Scope float_scope.

Variable Math_sqrt : float → float.
Variable exponentiate : float → float → float.
Variable StringToNumber : string → float.

Local Abbreviation sub := (minus StringToNumber).
Local Abbreviation pow := (power exponentiate).

Definition distance (this : t) (x y z : primitive) : outcome float :=
  and_then (sub x (IVec3.x this)) (λ dx, and_then (pow dx 2) (λ dx2,
  and_then (sub y (IVec3.y this)) (λ dy, and_then (pow dy 2) (λ dy2,
  and_then (sub z (IVec3.z this)) (λ dz, and_then (pow dz 2) (λ dz2,
  Return (Math_sqrt (dx2 + dy2 + dz2)))))))).

End distance.

End IVec3.

(** ** The blocks of the host: [IBlock] and [IDimension]

    Both classes work on the world of the host through [mc.world].  What the
    host does is not in the pack; it is a parameter here, and what the
    classes do with their arguments and with the answers of the host is
    embedded from the source. *)

(** The values the two classes are called with: primitive values, an object
    literal with the properties [x], [y], [z] ([undefined] for a property it
    does not have), an [IVec3] and an [IDimension]. *)
Inductive value : Type :=
| Prim (v : jsval)
| Plain (x y z : value)
| Vec3 (x y z : value)
| Dim (id : string).

Definition undefined : value := Prim VUndefined.

Definition null : value := Prim VNull.

(** [v !== null] *)
Definition not_null (v : value) : bool :=
  match v with
  | Prim VNull => false
  | _ => true
  end.

(** A parameter with a default value. *)
Definition value_or_default (arg dflt : value) : value :=
  match arg with
  | Prim VUndefined => dflt
  | _ => arg
  end.

(** [v] is neither [undefined] nor [null]. *)
Definition given (v : value) : bool :=
  match v with
  | Prim VUndefined | Prim VNull => false
  | _ => true
  end.

(** [type] is one of the three strings that [up] and [down] know. *)
Definition known_type (type : value) : bool :=
  match value_or_default type (Prim (VStr "block")) with
  | Prim (VStr s) => String.eqb s "isoblock" || String.eqb s "block" || String.eqb s "vector"
  | _ => false
  end.

(** [v instanceof IVec3] *)
Definition instanceof_IVec3 (v : value) : bool :=
  match v with
  | Vec3 _ _ _ => true
  | _ => false
  end.

(** Reading a property throws a [TypeError] on [undefined] and [null]; a
    primitive value or an object without the property gives [undefined]. *)
Definition read_x (v : value) : outcome value :=
  match v with
  | Prim VUndefined | Prim VNull =>
      Throw (TypeError "Cannot read properties of undefined")
  | Prim _ | Dim _ => Return undefined
  | Plain x _ _ | Vec3 x _ _ => Return x
  end.

Definition read_y (v : value) : outcome value :=
  match v with
  | Prim VUndefined | Prim VNull =>
      Throw (TypeError "Cannot read properties of undefined")
  | Prim _ | Dim _ => Return undefined
  | Plain _ y _ | Vec3 _ y _ => Return y
  end.

Definition read_z (v : value) : outcome value :=
  match v with
  | Prim VUndefined | Prim VNull =>
      Throw (TypeError "Cannot read properties of undefined")
  | Prim _ | Dim _ => Return undefined
  | Plain _ _ z | Vec3 _ _ z => Return z
  end.

(** The host: its state, its dimensions and blocks, and what its functions
    answer.  [None] is an answer that is [undefined]. *)
Record host : Type := Host {
  World : Type;
  HostDimension : Type;
  HostBlock : Type;
  (** [mc.world.getDimension(d)] *)
  world_getDimension : value → World → outcome (option HostDimension) * World;
  (** [new mc.world.getDimension(d)] *)
  world_new_getDimension : value → World → outcome (option HostDimension) * World;
  (** [dimension.getBlock(location)] *)
  dimension_getBlock : HostDimension → value → World → outcome (option HostBlock) * World;
  (** [dimension.setBlockType(a, b)], with its two arguments in the order
      of the call *)
  dimension_setBlockType : HostDimension → value → value → World → outcome unit * World;
  (** [block.typeId] and [block.isAir] *)
  block_typeId : HostBlock → value;
  block_isAir : HostBlock → value;
  (** [Date.now()] *)
  Date_now : World → value;
  (** the text of a value in a template literal *)
  ToString : value → string;
  (** [v - 1], and [v + 1] (which appends to a string) *)
  minus_one : value → value;
  plus_one : value → value
}.

(** Code that runs on a state [S] and returns or throws. *)
Module Eff.

Definition eff (S A : Type) : Type := S → outcome A * S.

Definition ret {S A} (a : A) : eff S A := λ s, (Return a, s).

Definition throw {S A} (e : exn) : eff S A := λ s, (Throw e, s).

Definition bind {S A B} (m : eff S A) (f : A → eff S B) : eff S B :=
  λ s, match m s with
       | (Return a, s') => f a s'
       | (Throw e, s') => (Throw e, s')
       end.

(** An outcome that does not depend on the state. *)
Definition of_outcome {S A} (o : outcome A) : eff S A := λ s, (o, s).

(** [try { m } catch (error) { handler }] *)
Definition try_catch {S A} (m : eff S A) (handler : exn → eff S A) : eff S A :=
  λ s, match m s with
       | (Return a, s') => (Return a, s')
       | (Throw e, s') => handler e s'
       end.

(** The value of a method call on what may be [undefined]. *)
Definition defined {S A} (o : option A) : eff S A :=
  match o with
  | Some a => ret a
  | None => throw (TypeError "Cannot read properties of undefined")
  end.

Declare Scope eff_scope.
Delimit Scope eff_scope with eff.
Notation "x <- m ; f" := (bind m (λ x, f))
  (at level 20, m at level 100, f at level 200, only parsing) : eff_scope.
Notation "m ;; f" := (bind m (λ _, f))
  (at level 100, f at level 200, only parsing, right associativity) : eff_scope.

End Eff.

Module IBlock.

Import Eff.
Local Open Scope eff_scope.

Section host.

Context (H : host).

(** The fields of an [IBlock]; a field that was never assigned reads as
    [undefined]. *)
Record t : Type := mk {
  x : value;
  y : value;
  z : value;
  dimension : value;
  vector : value;
  block : option (HostBlock H);
  type : value;
  isAir : value;
  placeTime : value
}.

Definition set_y (v : value) (this : t) : t :=
  mk (x this) v (z this) (dimension this) (vector this) (block this) (type this)
     (isAir this) (placeTime this).

Definition set_dimension (v : value) (this : t) : t :=
  mk (x this) (y this) (z this) v (vector this) (block this) (type this)
     (isAir this) (placeTime this).

Definition set_block (b : option (HostBlock H)) (this : t) : t :=
  mk (x this) (y this) (z this) (dimension this) (vector this) b (type this)
     (isAir this) (placeTime this).

Definition set_type (v : value) (this : t) : t :=
  mk (x this) (y this) (z this) (dimension this) (vector this) (block this) v
     (isAir this) (placeTime this).

Definition set_isAir (v : value) (this : t) : t :=
  mk (x this) (y this) (z this) (dimension this) (vector this) (block this) (type this)
     v (placeTime this).

(** [mc.world.getDimension(d).getBlock(location)] *)
Definition host_getBlock (d location : value) : eff (World H) (option (HostBlock H)) :=
  o <- world_getDimension H d ;
  dim <- defined o ;
  dimension_getBlock H dim location.

(** [new IBlock(dimension, vec3, y, z)] *)
Definition constructor (dimension vec3 y z : value) : eff (World H) t :=
  let dimension := value_or_default dimension (Prim (VStr "overworld")) in
  let y := value_or_default y null in
  let z := value_or_default z null in
  xyz <- (if not_null y && not_null z then ret (vec3, y, z)
          else
            vx <- of_outcome (read_x vec3) ;
            vy <- of_outcome (read_y vec3) ;
            vz <- of_outcome (read_z vec3) ;
            ret (vx, vy, vz)) ;
  let '(this_x, this_y, this_z) := xyz in
  let this_dimension :=
    match dimension with
    | Dim id => Prim (VStr id)
    | _ => undefined
    end in
  let this_vector :=
    if negb (not_null y) && negb (not_null z) then vec3 else Vec3 vec3 y z in
  this_block <- host_getBlock dimension (Plain this_x this_y this_z) ;
  b <- defined this_block ;
  now <- (λ w, (Return (Date_now H w), w)) ;
  ret (mk this_x this_y this_z this_dimension this_vector this_block
          (block_typeId H b) (block_isAir H b) now).

Definition getBlock (this : t) : option (HostBlock H) := block this.

(** The methods run on the object and the world. *)
Definition on_world {A} (m : eff (World H) A) : eff (t * World H) A :=
  λ s, let (o, w) := m s.2 in (o, (s.1, w)).

Definition this : eff (t * World H) t := λ s, (Return s.1, s).

Definition assign (f : t → t) : eff (t * World H) unit :=
  λ s, (Return (), (f s.1, s.2)).

Definition updateBlock : eff (t * World H) unit :=
  o <- this ;
  b <- on_world (host_getBlock (dimension o) (Plain (x o) (y o) (z o))) ;
  assign (set_block b) ;;
  b <- defined b ;
  assign (set_type (block_typeId H b)) ;;
  assign (set_isAir (block_isAir H b)).

Definition setBlock (blockType : value) : eff (t * World H) unit :=
  o <- this ;
  d <- on_world (world_getDimension H (dimension o)) ;
  let blockLocation := Plain (x o) (y o) (z o) in
  dim <- defined d ;
  on_world (dimension_setBlockType H dim blockLocation blockType) ;;
  updateBlock.

Definition refreshBlock : eff (t * World H) unit :=
  o <- this ;
  setBlock (type o) ;;
  updateBlock.

(** What [down] and [up] return: an [IBlock], a block of the host (or
    [undefined]), or an [IVec3]. *)
Inductive neighbour : Type :=
| NeighbourIBlock (b : t)
| NeighbourBlock (b : option (HostBlock H))
| NeighbourVector (v : value).

(** The two methods, for the change [step] of the height: [v - 1] in
    [down], [v + 1] in [up]. *)
Definition move (step : value → value) (type : value) : eff (t * World H) neighbour :=
  let type := value_or_default type (Prim (VStr "block")) in
  o <- this ;
  match type with
  | Prim (VStr s) =>
      if String.eqb s "isoblock" then
        b <- on_world (constructor (x o) (step (y o)) (z o) undefined) ;
        ret (NeighbourIBlock b)
      else if String.eqb s "block" then
        d <- on_world (world_new_getDimension H (dimension o)) ;
        dim <- defined d ;
        b <- on_world (dimension_getBlock H dim (Plain (x o) (step (y o)) (z o))) ;
        ret (NeighbourBlock b)
      else if String.eqb s "vector" then
        assign (set_y (step (y o))) ;;
        o <- this ;
        ret (NeighbourVector (Vec3 (x o) (y o) (z o)))
      else throw (Error "Invalid type. Must be 'block', 'vector', or 'iblock'.")
  | _ => throw (Error "Invalid type. Must be 'block', 'vector', or 'iblock'.")
  end.

Definition down (type : value) : eff (t * World H) neighbour := move (minus_one H) type.

Definition up (type : value) : eff (t * World H) neighbour := move (plus_one H) type.

End host.

End IBlock.

Module IDimension.

Import Eff.
Local Open Scope eff_scope.

Section host.

Context (H : host).

Record t : Type := mk {
  dimension : option (HostDimension H);
  id : string
}.

(** [typeof v === "string"] *)
Definition as_string (v : value) : option string :=
  match v with
  | Prim (VStr s) => Some s
  | _ => None
  end.

(** [new IDimension(key)] *)
Definition constructor (key : value) : eff (World H) t :=
  match as_string key with
  | None =>
      throw (TypeError "Dimension key must be a string: 'overworld', 'nether', 'the_end'.")
  | Some k =>
      d <- world_getDimension H key ;
      match d with
      | None => throw (Error ("Dimension type '" +:+ k +:+ "' does not exist."))
      | Some _ =>
          d <- world_getDimension H key ;
          ret (mk d k)
      end
  end.

Definition on_world {A} (m : eff (World H) A) : eff (t * World H) A :=
  λ s, let (o, w) := m s.2 in (o, (s.1, w)).

Definition this : eff (t * World H) t := λ s, (Return s.1, s).

Definition assign (o : t) : eff (t * World H) unit :=
  λ s, (Return (), (o, s.2)).

Definition getDimension : eff (t * World H) (option (HostDimension H)) :=
  o <- this ; ret (dimension o).

Definition setDimension (key : value) : eff (t * World H) unit :=
  if negb (not_null key) then throw (Error "Dimension key cannot be null")
  else
    match as_string key with
    | None =>
        throw (Error "Dimension key must be a string: 'overworld', 'nether', 'the_end'.")
    | Some k =>
        d <- on_world (world_getDimension H key) ;
        match d with
        | None => throw (Error ("Dimension type '" +:+ k +:+ "' does not exist."))
        | Some _ =>
            d <- on_world (world_getDimension H key) ;
            o <- this ;
            assign (mk d (id o)) ;;
            o <- this ;
            assign (mk (dimension o) k)
        end
    end.

(** The first lines of [getBlock], [getBlockType] and [isBlockAir]: the
    position as an [IVec3]. *)
Definition to_IVec3 (vec3 y z : value) : eff (t * World H) value :=
  let y := value_or_default y null in
  let z := value_or_default z null in
  let vec3 := if not_null y && not_null z then Vec3 vec3 y z else vec3 in
  if negb (instanceof_IVec3 vec3) then
    vx <- of_outcome (read_x vec3) ;
    vy <- of_outcome (read_y vec3) ;
    vz <- of_outcome (read_z vec3) ;
    ret (Vec3 vx vy vz)
  else ret vec3.

(** The body ends in an assignment to the constant [block]. *)
Definition getBlock (vec3 y z : value) : eff (t * World H) (option (HostBlock H)) :=
  vec3 <- to_IVec3 vec3 y z ;
  o <- this ;
  vx <- of_outcome (read_x vec3) ;
  vy <- of_outcome (read_y vec3) ;
  vz <- of_outcome (read_z vec3) ;
  block <- on_world (IBlock.constructor H vx vy vz undefined) ;
  let block := IBlock.set_dimension H (Prim (VStr (id o))) block in
  (λ s, let (r, bw) := IBlock.updateBlock H (block, s.2) in
        match r with
        | Return _ =>
            let _ := IBlock.getBlock H bw.1 in
            (Throw (TypeError "Assignment to constant variable."), (s.1, bw.2))
        | Throw e => (Throw e, (s.1, bw.2))
        end).

Definition getBlockType (vec3 y z : value) : eff (t * World H) value :=
  vec3 <- to_IVec3 vec3 y z ;
  block <- getBlock vec3 undefined undefined ;
  b <- defined block ;
  ret (block_typeId H b).

(** [a === "minecraft:air" || a === "air"] *)
Definition is_air (a : value) : bool :=
  match a with
  | Prim (VStr s) => String.eqb s "minecraft:air" || String.eqb s "air"
  | _ => false
  end.

Definition isBlockAir (vec3 y z : value) : eff (t * World H) bool :=
  vec3 <- to_IVec3 vec3 y z ;
  block <- getBlock vec3 undefined undefined ;
  b <- defined block ;
  ret (is_air (block_typeId H b)).

(** The block id with the prefix [minecraft:] put in front when it does not
    start with it. *)
Definition block_id (block : string) : string :=
  if String.prefix "minecraft:" block then block else "minecraft:" +:+ block.

Definition setBlock (block vec3 y z : value) : eff (t * World H) unit :=
  let y := value_or_default y null in
  let z := value_or_default z null in
  let vec3 := if not_null y && not_null z then Plain vec3 y z else vec3 in
  let vec3 :=
    match vec3 with
    | Vec3 vx vy vz => Plain vx vy vz
    | _ => vec3
    end in
  match as_string block with
  | None =>
      throw (Error
        "Block must be represented as a string (block id), e.g., 'minecraft:stone'.")
  | Some block =>
      let block := block_id block in
      try_catch
        (o <- this ;
         dim <- defined (dimension o) ;
         vx <- of_outcome (read_x vec3) ;
         vy <- of_outcome (read_y vec3) ;
         vz <- of_outcome (read_z vec3) ;
         on_world (dimension_setBlockType H dim (Prim (VStr block)) (Plain vx vy vz)))
        (λ error,
           vx <- of_outcome (read_x vec3) ;
           vy <- of_outcome (read_y vec3) ;
           vz <- of_outcome (read_z vec3) ;
           o <- this ;
           let message := match error with Error m | TypeError m => m end in
           throw (Error ("Failed to set block at (" +:+ ToString H vx +:+ ", " +:+
                         ToString H vy +:+ ", " +:+ ToString H vz +:+
                         ") in dimension '" +:+ id o +:+ "': " +:+ message)))
  end.

End host.

End IDimension.

(** Two hosts to run the classes on: one that answers every call, with a
    stone block, and one whose [setBlockType] throws. *)
Definition stone_host : host :=
  Host unit unit unit
    (λ _ w, (Return (Some ()), w))
    (λ _ w, (Return (Some ()), w))
    (λ _ _ w, (Return (Some ()), w))
    (λ _ _ _ w, (Return (), w))
    (λ _, Prim (VStr "minecraft:stone"))
    (λ _, Prim (VBool false))
    (λ _, Prim (VNum 0))
    (λ _, "?")
    (λ v, v)
    (λ v, v).

Definition refusing_host : host :=
  Host unit unit unit
    (λ _ w, (Return (Some ()), w))
    (λ _ w, (Return (Some ()), w))
    (λ _ _ w, (Return None, w))
    (λ _ _ _ w, (Throw (Error "refused"), w))
    (λ _, Prim (VStr "minecraft:stone"))
    (λ _, Prim (VBool false))
    (λ _, Prim (VNum 0))
    (λ _, "?")
    (λ v, v)
    (λ v, v).

(** The examples of the documentation, and the two zeros. *)
Example clamp_examples :
  MathUtils.clamp (VNum 11) (VNum 1) (VNum 10) = Return (VNum 10) ∧
  MathUtils.clamp (VNum (-5)) (VNum 0) (VNum 100) = Return (VNum 0) ∧
  MathUtils.clamp (VNum 15) (VNum 1) (VNum 10) = Return (VNum 10) ∧
  MathUtils.clamp (VNum 0.5) (VNum 0) (VNum 1) = Return (VNum 0.5) ∧
  MathUtils.clamp (VNum neg_zero) (VNum 0) (VNum 5) = Return (VNum 0) ∧
  MathUtils.clamp (VNum 7) (VNum neg_infinity) (VNum infinity) = Return (VNum 7) ∧
  MathUtils.clamp (VNum 1) (VNum 10) (VNum 1) =
    Throw (Error "Minimum value cannot be greater than maximum value.") ∧
  MathUtils.clamp (VNum nan) (VNum 0) (VNum 1) = Throw (Error "Parameters cannot be NaN.") ∧
  MathUtils.clamp (VStr "5") (VNum 0) (VNum 1) =
    Throw (TypeError "All parameters must be numbers.") ∧
  MathUtils.clamp VNull (VNum 0) (VNum 1) =
    Throw (TypeError "All parameters must be numbers.").
Proof. vm_compute. repeat split. Qed.

(** The scenario of the documentation, capacity 3, as the code runs it. *)
Example scenario :
  let s := IList.run [IList.CPush (VStr "a") (KStr "p1"); IList.CPush (VStr "b") KUndefined;
                      IList.CPush (VStr "c") (KStr "p2"); IList.CPush (VStr "d") KUndefined]
                     (IList.new 3) in
  IList.stored s (KStr "p1") = Some [VNum 0; VNum 0; VStr "a"; VStr "b"] ∧
  IList.stored s (KStr "p2") = Some [VNum 0; VNum 0; VStr "c"; VStr "d"].
Proof. vm_compute. split; reflexivity. Qed.

(** What a caller can do past the methods, capacity 3: a value pushed to the
    array that [get] returned makes the entry longer than the class ever
    does, and [set] on the map that [map()] returned makes two keys hold one
    array, so that a [push] to one key changes the sequence of the other. *)
Example past_the_methods :
  let s0 := IList.after (IList.CPush (VStr "a") (KStr "p1")) (IList.new 3) in
  (IList.get (KStr "p1") s0).1 = Return 1%positive ∧
  (let s := IList.perform
              (IList.ArrayWrite 1%positive [VNum 0; VNum 0; VNum 0; VStr "a"; VStr "x"]) s0 in
   IList.getSize (KStr "p1") s = (Return 5, s)) ∧
  (let s := IList.perform (IList.ArrayWrite 1%positive []) s0 in
   IList.stored (IList.push (VStr "v") (KStr "p1") s).2 (KStr "p1") = Some [VStr "v"]) ∧
  (let s := IList.perform (IList.MapSet (KStr "p2") 1%positive) s0 in
   IList.stored s (KStr "p1") = Some [VNum 0; VNum 0; VNum 0; VStr "a"] ∧
   IList.stored (IList.push (VStr "d") (KStr "p2") s).2 (KStr "p1") =
     Some [VNum 0; VNum 0; VStr "a"; VStr "d"]).
Proof. vm_compute. repeat split. Qed.

(** * Facts about [IList] *)

Section IList_facts.
Import IList.
Local Open Scope js_scope.

Implicit Types (s : t) (k : key) (v : jsval) (l : loc) (xs : list jsval).

(** ** The methods as state transformers *)

Ltac js_unfold :=
  unfold push, get, has, getSize, removeData, clear, map, rawGet, rawSet,
    getMostRecentKey, Array_new_fill, Array_literal, Array_push, Array_shift,
    Array_length, data_has, data_get, data_set, data_delete, data_clear,
    this_maxSize, this_most_recent_key, assign_most_recent_key, not_an_object,
    bind, ret, throw, set_heap, set_data, set_most_recent_key; simpl.

Lemma truthy_twice k : negb (truthy k) && negb (truthy k) = negb (truthy k).
Proof. by destruct (truthy k). Qed.

Lemma push_falsy v karg s k :
  default_param karg (most_recent_key s) = k → truthy k = false →
  push v karg s =
    (Throw (Error "Key must be provided or set before using set method."),
     set_most_recent_key k s).
Proof. intros Hk H. js_unfold. rewrite Hk. by rewrite H. Qed.

Lemma push_existing v karg s k l xs :
  default_param karg (most_recent_key s) = k →
  truthy k = true → data s !! k = Some l → heap s !! l = Some xs →
  push v karg s =
    (Return (), mk (<[l := appended (maxSize s) xs v]> (heap s)) (maxSize s) (data s) k).
Proof.
  intros Hk Ht Hd Hh. js_unfold. rewrite Hk, Ht. simpl.
  rewrite Hd. rewrite bool_decide_true by eauto. simpl. rewrite Hd. simpl. rewrite Hh. simpl.
  rewrite lookup_insert_eq. simpl. unfold appended.
  case_bool_decide; simpl.
  - rewrite lookup_insert_eq. simpl.
    by rewrite insert_insert_eq, (insert_id (data s)).
  - by rewrite (insert_id (data s)).
Qed.

Lemma push_dangling v karg s k l :
  default_param karg (most_recent_key s) = k →
  truthy k = true → data s !! k = Some l → heap s !! l = None →
  push v karg s =
    (Throw (TypeError "Cannot read properties of undefined"), set_most_recent_key k s).
Proof.
  intros Hk Ht Hd Hh. js_unfold. rewrite Hk, Ht. simpl.
  rewrite Hd. rewrite bool_decide_true by eauto. simpl. rewrite Hd. simpl. by rewrite Hh.
Qed.

Lemma push_absent v karg s k :
  default_param karg (most_recent_key s) = k →
  truthy k = true → data s !! k = None →
  push v karg s =
    (Return (), mk (<[fresh (dom (heap s)) := replicate (maxSize s) (VNum 0) ++ [v]]> (heap s))
                   (maxSize s) (<[k := fresh (dom (heap s))]> (data s)) k).
Proof.
  intros Hk Ht Hd. js_unfold. rewrite Hk, Ht. simpl.
  rewrite Hd. rewrite bool_decide_false by (intros [? ?]; done). simpl.
  rewrite lookup_insert_eq. simpl. rewrite lookup_insert_eq. simpl.
  by rewrite insert_insert_eq.
Qed.

Lemma get_existing k s l :
  data s !! k = Some l → get k s = (Return l, set_most_recent_key k s).
Proof. intros Hd. js_unfold. by rewrite Hd. Qed.

Lemma get_absent k s :
  data s !! k = None →
  get k s =
    (Return (fresh (dom (heap s))),
     mk (<[fresh (dom (heap s)) := replicate (maxSize s) (VNum 0)]> (heap s))
        (maxSize s) (data s) k).
Proof. intros Hd. js_unfold. by rewrite Hd. Qed.

Lemma has_throws karg s :
  truthy (default_param karg (most_recent_key s)) = false →
  truthy (most_recent_key s) = false →
  has karg s =
    (Throw (Error "Key must be provided or set before using has method."), s).
Proof. intros H1 H2. js_unfold. by rewrite H1, H2. Qed.

Lemma has_truthy karg s k :
  default_param karg (most_recent_key s) = k → truthy k = true →
  has karg s = (Return (bool_decide (is_Some (data s !! k))), s).
Proof. intros Hk Ht. js_unfold. rewrite Hk. unfold or_else. by rewrite Ht. Qed.

Lemma getSize_throws karg s :
  truthy (default_param karg (most_recent_key s)) = false →
  truthy (most_recent_key s) = false →
  getSize karg s =
    (Throw (Error "Key must be provided or set before using getSize method."), s).
Proof. intros H1 H2. js_unfold. by rewrite H1, H2. Qed.

Lemma getSize_stored karg s k xs :
  default_param karg (most_recent_key s) = k → truthy k = true →
  stored s k = Some xs →
  getSize karg s = (Return (length xs), s).
Proof.
  intros Hk Ht Hs. unfold stored in Hs.
  destruct (data s !! k) as [l|] eqn:Hd; [simpl in Hs | done].
  js_unfold. rewrite Hk, Ht. simpl. rewrite Hd.
  rewrite bool_decide_true by eauto. simpl. rewrite Hd. simpl. by rewrite Hs.
Qed.

Lemma getSize_absent karg s k :
  default_param karg (most_recent_key s) = k → truthy k = true →
  data s !! k = None →
  getSize karg s = (Return 0, s).
Proof.
  intros Hk Ht Hd. js_unfold. rewrite Hk, Ht. simpl. rewrite Hd.
  by rewrite bool_decide_false by (by intros [? ?]).
Qed.

Lemma removeData_truthy k s :
  truthy k = true →
  removeData k s =
    (Return (Some (bool_decide (is_Some (data s !! k)))), set_data (delete k (data s)) s).
Proof.
  intros Ht. js_unfold.
  assert (default_param k KNull = k) as -> by (by destruct k).
  by rewrite Ht.
Qed.

Lemma removeData_falsy karg s :
  truthy (default_param karg KNull) = false →
  removeData karg s = (Return None, set_data ∅ s).
Proof. intros Ht. js_unfold. by rewrite Ht. Qed.

Lemma clear_eq s : clear s = (Return (), mk (heap s) (maxSize s) ∅ KNull).
Proof. reflexivity. Qed.

Lemma set_most_recent_key_id s : set_most_recent_key (most_recent_key s) s = s.
Proof. by destruct s. Qed.

Lemma default_param_most_recent_key s :
  default_param (most_recent_key s) (most_recent_key s) = most_recent_key s.
Proof. by destruct (most_recent_key s). Qed.

Lemma push_most_recent_key v karg s :
  most_recent_key (push v karg s).2 = default_param karg (most_recent_key s).
Proof.
  destruct (truthy (default_param karg (most_recent_key s))) eqn:Ht.
  - destruct (data s !! default_param karg (most_recent_key s)) as [l|] eqn:Hd.
    + destruct (heap s !! l) as [xs|] eqn:Hh.
      * by erewrite push_existing.
      * by erewrite push_dangling.
    + by erewrite push_absent.
  - by erewrite push_falsy.
Qed.

Lemma push_omitted v s : push v KUndefined s = push v (most_recent_key s) s.
Proof.
  unfold push, bind, this_most_recent_key. simpl.
  by rewrite default_param_most_recent_key.
Qed.

Lemma has_omitted s : has KUndefined s = has (most_recent_key s) s.
Proof.
  unfold has, bind, this_most_recent_key. simpl.
  by rewrite default_param_most_recent_key.
Qed.

Lemma getSize_omitted s : getSize KUndefined s = getSize (most_recent_key s) s.
Proof.
  unfold getSize, bind, this_most_recent_key. simpl.
  by rewrite default_param_most_recent_key.
Qed.

Lemma has_state karg s : (has karg s).2 = s.
Proof.
  unfold has, bind, this_most_recent_key, throw, data_has. simpl.
  by destruct (_ && _).
Qed.

Lemma getSize_state karg s : (getSize karg s).2 = s.
Proof.
  unfold getSize, bind, this_most_recent_key, throw, data_has, data_get. simpl.
  destruct (_ && _); [done|]. simpl.
  destruct (bool_decide _); [|done]. simpl.
  destruct (data s !! _); [|done].
  unfold Array_length, not_an_object, throw. by destruct (heap s !! _).
Qed.

Lemma keeps_key_after c s :
  keeps_key c = true → most_recent_key (after c s) = most_recent_key s.
Proof.
  destruct c; try done; simpl; intros _.
  - unfold removeData. by destruct (truthy _).
  - by rewrite has_state.
  - by rewrite getSize_state.
Qed.

(** ** The key that is used when none is given *)

(** C4, as the code has it: [get] and [push] record the key they are
    called with in [most_recent_key] ([push] also when it throws); [clear]
    resets it to [null] and no other method assigns it.  [push], [has] and
    [getSize] called without a key are the same calls with that last-used
    key: when it is a non-empty string they act on its entry, and when it is
    falsy ([null] after the constructor or after [clear], or a falsy key that
    [get] or [push] was called with) each of the three throws its
    missing-key error. *)
Theorem omitted_key_is_last_used_key s v :
  (∀ k, most_recent_key (get k s).2 = k) ∧
  (∀ k, k ≠ KUndefined → most_recent_key (push v k s).2 = k) ∧
  most_recent_key (push v KUndefined s).2 = most_recent_key s ∧
  most_recent_key (clear s).2 = KNull ∧
  (∀ c, keeps_key c = true → most_recent_key (after c s) = most_recent_key s) ∧
  push v KUndefined s = push v (most_recent_key s) s ∧
  has KUndefined s = has (most_recent_key s) s ∧
  getSize KUndefined s = getSize (most_recent_key s) s ∧
  (truthy (most_recent_key s) = true →
     has KUndefined s =
       (Return (bool_decide (is_Some (data s !! most_recent_key s))), s) ∧
     (∀ l xs, data s !! most_recent_key s = Some l → heap s !! l = Some xs →
        getSize KUndefined s = (Return (length xs), s) ∧
        push v KUndefined s =
          (Return (), set_heap (<[l := appended (maxSize s) xs v]> (heap s)) s)) ∧
     (data s !! most_recent_key s = None →
        getSize KUndefined s = (Return 0, s) ∧
        (push v KUndefined s).1 = Return () ∧
        stored (push v KUndefined s).2 (most_recent_key s) =
          Some (replicate (maxSize s) (VNum 0) ++ [v]))) ∧
  (truthy (most_recent_key s) = false →
     push v KUndefined s =
       (Throw (Error "Key must be provided or set before using set method."), s) ∧
     has KUndefined s =
       (Throw (Error "Key must be provided or set before using has method."), s) ∧
     getSize KUndefined s =
       (Throw (Error "Key must be provided or set before using getSize method."), s)) ∧
  (∀ c, most_recent_key (new c) = KNull) ∧
  truthy KNull = false.
Proof.
  split; [|split; [|split; [|split; [|split; [|split; [|split; [|split;
    [|split; [|split; [|split]]]]]]]]]].
  - intros k. unfold get, bind, assign_most_recent_key, data_get. simpl.
    by destruct (data s !! k).
  - intros k Hk. rewrite push_most_recent_key. by destruct k.
  - by rewrite push_most_recent_key.
  - done.
  - intros c. apply keeps_key_after.
  - apply push_omitted.
  - apply has_omitted.
  - apply getSize_omitted.
  - intros Ht. split; [|split].
    + by apply has_truthy.
    + intros l xs Hd Hh. split.
      * apply getSize_stored with (k := most_recent_key s); [done..|].
        unfold stored. by rewrite Hd.
      * erewrite push_existing; [|reflexivity|done..]. by destruct s.
    + intros Hd. split; [|split].
      * by apply getSize_absent with (k := most_recent_key s).
      * by erewrite push_absent.
      * erewrite push_absent; [|reflexivity|done..].
        unfold stored. simpl. rewrite lookup_insert_eq. simpl.
        by rewrite lookup_insert_eq.
  - intros Hn. split; [|split].
    + erewrite push_falsy; [|reflexivity|done].
      simpl. by rewrite set_most_recent_key_id.
    + by apply has_throws.
    + by apply getSize_throws.
  - done.
  - done.
Qed.

Lemma omitted_key_witness :
  let s := (push (VStr "a") (KStr "p1") (new 3)).2 in
  truthy (most_recent_key s) = true ∧
  has KUndefined s = (Return true, s) ∧
  getSize KUndefined s = (Return 4, s).
Proof.
  intros s.
  destruct (omitted_key_is_last_used_key s VNull)
    as (_ & _ & _ & _ & _ & _ & _ & _ & H & _).
  destruct (H eq_refl) as (Hhas & Hsize & _).
  split; [reflexivity|]. split.
  - exact Hhas.
  - exact (proj1 (Hsize 1%positive [VNum 0; VNum 0; VNum 0; VStr "a"] eq_refl eq_refl)).
Defined.

(** C4 fails as stated after [clear]: the most recent [push] set the key
    ["p1"], yet [has], [getSize] and [push] without key do not use ["p1"]
    ([has] of it returns [false], and [getSize] of it 0) but throw the
    missing-key error.  They throw it also after [get] of the empty string,
    although a key has been set. *)
Lemma omitted_key_after_clear :
  let s := run [CPush (VStr "a") (KStr "p1"); CClear] (new 3) in
  let s' := run [CGet (KStr EmptyString)] (new 3) in
  has (KStr "p1") s = (Return false, s) ∧
  getSize (KStr "p1") s = (Return 0, s) ∧
  has KUndefined s =
    (Throw (Error "Key must be provided or set before using has method."), s) ∧
  getSize KUndefined s =
    (Throw (Error "Key must be provided or set before using getSize method."), s) ∧
  (push (VStr "b") KUndefined s).1 =
    Throw (Error "Key must be provided or set before using set method.") ∧
  most_recent_key s' = KStr EmptyString ∧
  has KUndefined s' =
    (Throw (Error "Key must be provided or set before using has method."), s').
Proof. vm_compute. repeat split. Qed.

(** ** Reading a key that has no entry *)

Lemma truthy_default_param k d : truthy k = true → default_param k d = k.
Proof. by destruct k. Qed.

(** C5, as the code has it: for a key [k] without entry, [get k] returns a
    new array of [maxSize] zeros, leaves the map as it was and makes [k] the
    last-used key; a second [get k] returns another new array of zeros.
    [has k] afterwards returns [false] when [k] is a non-empty string; for a
    falsy [k] (the empty string, [null], [undefined]) it throws the
    missing-key error. *)
Theorem get_absent_key s k :
  data s !! k = None →
  ∃ l s1 l' s2,
    get k s = (Return l, s1) ∧
    (l ∉ dom (heap s)) ∧
    heap s1 !! l = Some (replicate (maxSize s) (VNum 0)) ∧
    data s1 = data s ∧
    most_recent_key s1 = k ∧
    (truthy k = true → has k s1 = (Return false, s1)) ∧
    (truthy k = false →
       has k s1 =
         (Throw (Error "Key must be provided or set before using has method."), s1)) ∧
    get k s1 = (Return l', s2) ∧
    (l' ≠ l) ∧
    (l' ∉ dom (heap s1)) ∧
    heap s2 !! l' = Some (replicate (maxSize s) (VNum 0)) ∧
    data s2 = data s.
Proof.
  intros Hd.
  set (l := fresh (dom (heap s))).
  set (s1 := mk (<[l := replicate (maxSize s) (VNum 0)]> (heap s)) (maxSize s) (data s) k).
  set (l' := fresh (dom (heap s1))).
  set (s2 := mk (<[l' := replicate (maxSize s) (VNum 0)]> (heap s1)) (maxSize s) (data s) k).
  assert (l' ∉ dom (heap s1)) as Hl' by apply is_fresh.
  exists l, s1, l', s2. repeat split.
  - by apply get_absent.
  - apply is_fresh.
  - simpl. apply lookup_insert_eq.
  - intros Ht. erewrite has_truthy; [|by apply truthy_default_param|done].
    simpl. rewrite Hd. by rewrite bool_decide_false by (by intros [? ?]).
  - intros Ht. apply has_throws; simpl; [|done].
    by destruct k.
  - by rewrite (get_absent k s1).
  - intros ->. apply Hl'. simpl. rewrite dom_insert_L. set_solver.
  - done.
  - simpl. apply lookup_insert_eq.
Qed.

Lemma get_absent_key_witness :
  ∃ l s1, get (KStr "p1") (new 3) = (Return l, s1) ∧
          heap s1 !! l = Some [VNum 0; VNum 0; VNum 0] ∧
          has (KStr "p1") s1 = (Return false, s1).
Proof.
  destruct (get_absent_key (new 3) (KStr "p1") eq_refl)
    as (l & s1 & _ & _ & Hget & _ & Hheap & _ & _ & Hhas & _).
  exists l, s1. split; [exact Hget|]. split; [exact Hheap|]. exact (Hhas eq_refl).
Defined.

(** C5 fails as stated at the empty string: after [get] of it, [has] of it
    throws instead of returning [false]. *)
Lemma get_then_has_empty_string :
  let s := new 3 in
  let k := KStr EmptyString in
  data s !! k = None ∧
  (has k (get k s).2).1 =
    Throw (Error "Key must be provided or set before using has method.") ∧
  (has k (get k s).2).1 ≠ Return false.
Proof. vm_compute. repeat split. discriminate. Qed.

(** ** Removing entries *)

(** C6, as the code has it: for a non-empty string [k], [removeData k]
    returns [true] and leaves no entry for [k] when there was one, and
    returns [false] and changes nothing when there was none; [removeData]
    without argument, and likewise with a falsy argument such as the empty
    string, empties the map and returns [undefined]. *)
Theorem removeData_spec s k :
  (truthy k = true →
     (is_Some (data s !! k) →
        ∃ s1, removeData k s = (Return (Some true), s1) ∧
              data s1 = delete k (data s) ∧
              has k s1 = (Return false, s1)) ∧
     (data s !! k = None → removeData k s = (Return (Some false), s))) ∧
  (truthy k = false → removeData k s = removeData KUndefined s) ∧
  (∃ s1, removeData KUndefined s = (Return None, s1) ∧ map s1 = (Return ∅, s1)).
Proof.
  split; [|split].
  - intros Ht. split.
    + intros Hs. exists (set_data (delete k (data s)) s). repeat split.
      * rewrite removeData_truthy by done. by rewrite bool_decide_true.
      * erewrite has_truthy; [|by apply truthy_default_param|done].
        simpl. rewrite lookup_delete_eq.
        by rewrite bool_decide_false by (by intros [? ?]).
    + intros Hd. rewrite removeData_truthy by done.
      rewrite bool_decide_false by (rewrite Hd; by intros [? ?]).
      rewrite delete_id by done. by destruct s.
  - intros Ht. rewrite !removeData_falsy; [done..|].
    by destruct k.
  - exists (set_data ∅ s). split; [|done]. by apply removeData_falsy.
Qed.

Lemma removeData_spec_witness :
  let s := (push (VStr "a") (KStr "p1") (new 3)).2 in
  (∃ s1, removeData (KStr "p1") s = (Return (Some true), s1) ∧
         data s1 = delete (KStr "p1") (data s) ∧
         has (KStr "p1") s1 = (Return false, s1)) ∧
  removeData (KStr "p2") s = (Return (Some false), s).
Proof.
  intros s. split.
  - apply (proj1 (proj1 (removeData_spec s (KStr "p1")) eq_refl)).
    exists 1%positive. reflexivity.
  - apply (proj2 (proj1 (removeData_spec s (KStr "p2")) eq_refl)).
    reflexivity.
Defined.

(** C6 fails as stated at the empty string: with no entry for it,
    [removeData] of it does not return [false]; it returns [undefined] and
    deletes the entries of all other keys. *)
Lemma removeData_empty_string :
  let s := (push (VStr "a") (KStr "p1") (new 3)).2 in
  let k := KStr EmptyString in
  data s !! k = None ∧
  is_Some (data s !! KStr "p1") ∧
  (removeData k s).1 = Return None ∧
  (removeData k s).1 ≠ Return (Some false) ∧
  data (removeData k s).2 = ∅.
Proof. vm_compute. repeat split; [by eexists | discriminate]. Qed.

Lemma push_returns_truthy v karg s :
  (push v karg s).1 = Return () →
  truthy (default_param karg (most_recent_key s)) = true.
Proof.
  destruct (truthy (default_param karg (most_recent_key s))) eqn:Ht; [done|].
  by erewrite push_falsy.
Qed.

(** C10: [removeData] without argument empties the map and keeps the
    last-used key, whereas [clear] also resets it to [null]; so when a
    last-used key is set (as it is whenever a [push] without key succeeds),
    a [push] without key after [removeData ()] succeeds and creates the only
    entry, under that key, and after [clear] it throws the missing-key
    error. *)
Theorem removeData_keeps_last_used_key s v :
  let s1 := (removeData KUndefined s).2 in
  let s2 := (clear s).2 in
  data s1 = ∅ ∧ most_recent_key s1 = most_recent_key s ∧
  data s2 = ∅ ∧ most_recent_key s2 = KNull ∧
  (∀ v0, (push v0 KUndefined s).1 = Return () → truthy (most_recent_key s) = true) ∧
  (truthy (most_recent_key s) = true →
     (push v KUndefined s1).1 = Return () ∧
     most_recent_key (push v KUndefined s1).2 = most_recent_key s ∧
     dom (data (push v KUndefined s1).2) = {[most_recent_key s]} ∧
     stored (push v KUndefined s1).2 (most_recent_key s) =
       Some (replicate (maxSize s) (VNum 0) ++ [v])) ∧
  push v KUndefined s2 =
    (Throw (Error "Key must be provided or set before using set method."), s2).
Proof.
  intros s1 s2. subst s1 s2. rewrite removeData_falsy by done. simpl.
  split; [done|]. split; [done|]. split; [done|]. split; [done|].
  split; [|split; [|done]].
  { intros v0. apply push_returns_truthy. }
  intros Ht. split; [|split; [|split]].
  - by erewrite push_absent.
  - by rewrite push_most_recent_key.
  - erewrite push_absent; [|reflexivity|done..]. simpl.
    by rewrite dom_insert_L, dom_empty_L, union_empty_r_L.
  - erewrite push_absent; [|reflexivity|done..]. unfold stored. simpl.
    rewrite lookup_insert_eq. simpl. by rewrite lookup_insert_eq.
Qed.

Lemma removeData_keeps_last_used_key_witness :
  let s := (push (VStr "a") (KStr "p1") (new 3)).2 in
  let s1 := (removeData KUndefined s).2 in
  truthy (most_recent_key s) = true ∧
  (push (VStr "b") KUndefined s1).1 = Return () ∧
  stored (push (VStr "b") KUndefined s1).2 (KStr "p1") =
    Some [VNum 0; VNum 0; VNum 0; VStr "b"].
Proof.
  intros s s1.
  destruct (removeData_keeps_last_used_key s (VStr "b")) as (_ & _ & _ & _ & _ & H & _).
  destruct (H eq_refl) as (Hret & _ & _ & Hst).
  split; [reflexivity|]. split; [exact Hret | exact Hst].
Defined.

(** ** What [push] leaves alone *)

Lemma stored_Some s k xs :
  stored s k = Some xs ↔ ∃ l, data s !! k = Some l ∧ heap s !! l = Some xs.
Proof.
  unfold stored. destruct (data s !! k) as [l|]; simpl.
  - split; [by exists l | by intros (? & [= <-] & ?)].
  - split; [done | by intros (? & ? & ?)].
Qed.

Lemma fresh_not_allocated s l xs :
  heap s !! l = Some xs → l ≠ fresh (dom (heap s)).
Proof.
  intros Hh ->. apply (is_fresh (dom (heap s))).
  apply elem_of_dom. by eexists.
Qed.

Lemma push_other_entry s v karg k1 xs :
  k1 ≠ default_param karg (most_recent_key s) →
  data s !! default_param karg (most_recent_key s) ≠ data s !! k1 →
  stored s k1 = Some xs →
  stored (push v karg s).2 k1 = Some xs.
Proof.
  set (k2 := default_param karg (most_recent_key s)).
  intros Hne Hal (l1 & Hd1 & Hh1)%stored_Some. apply stored_Some.
  destruct (truthy k2) eqn:Ht.
  - destruct (data s !! k2) as [l2|] eqn:Hd2.
    + destruct (heap s !! l2) as [ys|] eqn:Hh2.
      * erewrite push_existing; [|reflexivity|done..]. simpl.
        exists l1. split; [done|].
        rewrite lookup_insert_ne; [done|]. intros ->. apply Hal. by rewrite Hd1.
      * erewrite push_dangling; [|reflexivity|done..]. by exists l1.
    + erewrite push_absent; [|reflexivity|done..]. simpl.
      exists l1. split.
      * by rewrite lookup_insert_ne.
      * rewrite lookup_insert_ne; [done|].
        apply not_eq_sym. by eapply fresh_not_allocated.
  - erewrite push_falsy; [|reflexivity|done]. by exists l1.
Qed.

(** C7 fails as stated when two keys hold the same array, which [rawSet]
    allows: after [rawSet("p2", rawGet("p1"))] a [push] to ["p2"] changes
    the sequence stored for ["p1"]. *)
Lemma push_shared_array :
  let s0 := (push (VStr "a") (KStr "p1") (new 3)).2 in
  let s := run [CRawSet (KStr "p2") 1%positive] s0 in
  rawGet (KStr "p1") s0 = (Return (Some 1%positive), s0) ∧
  stored s (KStr "p1") = Some [VNum 0; VNum 0; VNum 0; VStr "a"] ∧
  stored (push (VStr "d") (KStr "p2") s).2 (KStr "p1") =
    Some [VNum 0; VNum 0; VStr "a"; VStr "d"] ∧
  stored (push (VStr "d") (KStr "p2") s).2 (KStr "p1") ≠ stored s (KStr "p1").
Proof. vm_compute. repeat split. discriminate. Qed.

(** ** The invariant of the entries *)

Lemma appended_full n xs v :
  length xs = n + 1 →
  appended n xs v = tail xs ++ [v] ∧ length (appended n xs v) = n + 1.
Proof.
  intros Hlen. unfold appended. rewrite length_app. simpl.
  rewrite bool_decide_true by lia.
  destruct xs as [|x xs]; simpl in *; [lia|].
  split; [done|]. rewrite length_app. simpl. lia.
Qed.

Lemma full_unshared_push v karg s :
  entries_full s → entries_unshared s →
  entries_full (push v karg s).2 ∧ entries_unshared (push v karg s).2 ∧
  maxSize (push v karg s).2 = maxSize s.
Proof.
  intros Hf Hu. set (k := default_param karg (most_recent_key s)).
  destruct (truthy k) eqn:Ht.
  - destruct (data s !! k) as [l|] eqn:Hd.
    + destruct (Hf _ _ Hd) as (xs & Hh & Hlen).
      erewrite push_existing; [|reflexivity|done..]. simpl.
      split; [|done]. intros k' l' Hd'. simpl in *.
      destruct (decide (l' = l)) as [->|Hne].
      * rewrite lookup_insert_eq. eexists. split; [done|].
        by apply appended_full.
      * rewrite lookup_insert_ne by done. by eapply Hf.
    + erewrite push_absent; [|reflexivity|done..]. simpl.
      split; [|split; [|done]].
      * intros k' l'. simpl. rewrite lookup_insert.
        case_decide as Hk.
        -- intros [= <-]. rewrite lookup_insert_eq. eexists. split; [done|].
           rewrite length_app, length_replicate. simpl. lia.
        -- intros Hd'. destruct (Hf _ _ Hd') as (xs & Hh & Hlen).
           exists xs. split; [|done]. rewrite lookup_insert_ne; [done|].
           apply not_eq_sym. by eapply fresh_not_allocated.
      * intros k1 k2 l'. simpl. rewrite !lookup_insert.
        repeat case_decide; subst; try done.
        -- intros [= <-] Hd'. destruct (Hf _ _ Hd') as (xs & Hh & _).
           by apply fresh_not_allocated in Hh.
        -- intros Hd' [= <-]. destruct (Hf _ _ Hd') as (xs & Hh & _).
           by apply fresh_not_allocated in Hh.
        -- apply Hu.
  - by erewrite push_falsy.
Qed.

Lemma full_unshared_after c s :
  is_rawSet c = false →
  entries_full s → entries_unshared s →
  entries_full (after c s) ∧ entries_unshared (after c s) ∧
  maxSize (after c s) = maxSize s.
Proof.
  intros Hc Hf Hu. destruct c; simpl; try done.
  - (* get *)
    destruct (data s !! key0) as [l|] eqn:Hd.
    + by erewrite get_existing.
    + rewrite get_absent by done. simpl. split; [|done].
      intros k' l' Hd'. simpl in *. destruct (Hf _ _ Hd') as (xs & Hh & Hlen).
      exists xs. split; [|done]. rewrite lookup_insert_ne; [done|].
      apply not_eq_sym. by eapply fresh_not_allocated.
  - by apply full_unshared_push.
  - (* removeData *)
    destruct (truthy (default_param key0 KNull)) eqn:Ht.
    + assert (truthy key0 = true) as Ht' by (by destruct key0).
      rewrite removeData_truthy by done. simpl. split; [|split; [|done]].
      * intros k' l'. simpl. rewrite lookup_delete. case_decide; [done|]. apply Hf.
      * intros k1 k2 l'. simpl. rewrite !lookup_delete.
        repeat case_decide; try done. apply Hu.
    + rewrite removeData_falsy by done. simpl. split; [|split; [|done]].
      * intros k' l'. simpl. by rewrite lookup_empty.
      * intros k1 k2 l'. simpl. by rewrite lookup_empty.
  - by rewrite has_state.
  - by rewrite getSize_state.
  - (* an array literal of the caller *)
    split; [|done].
    intros k' l' Hd'. simpl in *. destruct (Hf _ _ Hd') as (ys & Hh & Hlen).
    exists ys. split; [|done]. rewrite lookup_insert_ne; [done|].
    apply not_eq_sym. by eapply fresh_not_allocated.
Qed.

Lemma full_unshared_run cs s :
  forallb (λ c, negb (is_rawSet c)) cs = true →
  entries_full s → entries_unshared s →
  entries_full (run cs s) ∧ entries_unshared (run cs s) ∧
  maxSize (run cs s) = maxSize s.
Proof.
  revert s. induction cs as [|c cs IH]; intros s Hcs Hf Hu; [done|].
  simpl in Hcs. apply andb_prop in Hcs as [Hc Hcs].
  apply negb_true_iff in Hc.
  destruct (full_unshared_after c s Hc Hf Hu) as (Hf' & Hu' & Hm).
  simpl. destruct (IH (after c s) Hcs Hf' Hu') as (? & ? & ->). done.
Qed.

Lemma full_unshared_new c : entries_full (new c) ∧ entries_unshared (new c).
Proof. split; intros ?; intros; by simplify_map_eq. Qed.

(** The entries stay allocated and unshared as long as no array is put into
    the map from outside, whatever the caller writes to the arrays. *)
Lemma allocated_unshared_push v karg s :
  entries_allocated s → entries_unshared s →
  entries_allocated (push v karg s).2 ∧ entries_unshared (push v karg s).2.
Proof.
  intros Ha Hu. set (k := default_param karg (most_recent_key s)).
  destruct (truthy k) eqn:Ht.
  - destruct (data s !! k) as [l|] eqn:Hd.
    + destruct (Ha _ _ Hd) as [xs Hh].
      erewrite push_existing; [|reflexivity|done..]. simpl.
      split; [|done]. intros k' l' Hd'. simpl in *.
      rewrite lookup_insert. case_decide; [by eexists|]. by eapply Ha.
    + erewrite push_absent; [|reflexivity|done..]. simpl. split.
      * intros k' l'. simpl. rewrite lookup_insert.
        case_decide as Hk.
        -- intros [= <-]. rewrite lookup_insert_eq. by eexists.
        -- intros Hd'. destruct (Ha _ _ Hd') as [xs Hh].
           exists xs. rewrite lookup_insert_ne; [done|].
           apply not_eq_sym. by eapply fresh_not_allocated.
      * intros k1 k2 l'. simpl. rewrite !lookup_insert.
        repeat case_decide; subst; try done.
        -- intros [= <-] Hd'. destruct (Ha _ _ Hd') as [xs Hh].
           by apply fresh_not_allocated in Hh.
        -- intros Hd' [= <-]. destruct (Ha _ _ Hd') as [xs Hh].
           by apply fresh_not_allocated in Hh.
        -- apply Hu.
  - by erewrite push_falsy.
Qed.

Lemma allocated_alloc s ys k :
  entries_allocated s →
  entries_allocated (mk (<[fresh (dom (heap s)) := ys]> (heap s)) (maxSize s) (data s) k).
Proof.
  intros Ha k' l' Hd'. simpl in *. destruct (Ha _ _ Hd') as [xs Hh].
  exists xs. rewrite lookup_insert_ne; [done|].
  apply not_eq_sym. by eapply fresh_not_allocated.
Qed.

Lemma allocated_unshared_delete s k :
  entries_allocated s → entries_unshared s →
  entries_allocated (set_data (delete k (data s)) s) ∧
  entries_unshared (set_data (delete k (data s)) s).
Proof.
  intros Ha Hu. split.
  - intros k' l'. simpl. rewrite lookup_delete. case_decide; [done|]. apply Ha.
  - intros k1 k2 l'. simpl. rewrite !lookup_delete.
    repeat case_decide; try done. apply Hu.
Qed.

Lemma allocated_unshared_empty s :
  entries_allocated (set_data ∅ s) ∧ entries_unshared (set_data ∅ s).
Proof.
  split.
  - intros k' l'. simpl. by rewrite lookup_empty.
  - intros k1 k2 l'. simpl. by rewrite lookup_empty.
Qed.

Lemma allocated_unshared_after c s :
  is_rawSet c = false →
  entries_allocated s → entries_unshared s →
  entries_allocated (after c s) ∧ entries_unshared (after c s).
Proof.
  intros Hc Ha Hu. destruct c; simpl; try done.
  - (* get *)
    destruct (data s !! key0) as [l|] eqn:Hd.
    + by erewrite get_existing.
    + rewrite get_absent by done. split; [by apply allocated_alloc|done].
  - by apply allocated_unshared_push.
  - (* removeData *)
    destruct (truthy (default_param key0 KNull)) eqn:Ht.
    + assert (truthy key0 = true) as Ht' by (by destruct key0).
      rewrite removeData_truthy by done. by apply allocated_unshared_delete.
    + rewrite removeData_falsy by done. apply allocated_unshared_empty.
  - by rewrite has_state.
  - by rewrite getSize_state.
  - (* an array literal of the caller *)
    split; [|done]. destruct s. by apply (allocated_alloc (mk _ _ _ _)).
Qed.

Lemma allocated_unshared_perform a s :
  stores_array a = false →
  entries_allocated s → entries_unshared s →
  entries_allocated (perform a s) ∧ entries_unshared (perform a s).
Proof.
  intros Hs Ha Hu. destruct a as [c|a xs|k a|k|]; simpl.
  - apply allocated_unshared_after; [by destruct c|done..].
  - (* a write of the caller to an array *)
    unfold Array_write. destruct (heap s !! a) as [ys|] eqn:Hh; [|done].
    simpl. split; [|done]. intros k' l' Hd'. simpl in *.
    rewrite lookup_insert. case_decide; [by eexists|]. by eapply Ha.
  - done.
  - by apply allocated_unshared_delete.
  - apply allocated_unshared_empty.
Qed.

Lemma allocated_unshared_performs acts s :
  forallb (λ a, negb (stores_array a)) acts = true →
  entries_allocated s → entries_unshared s →
  entries_allocated (performs acts s) ∧ entries_unshared (performs acts s).
Proof.
  revert s. induction acts as [|a acts IH]; intros s Hacts Ha Hu; [done|].
  simpl in Hacts. apply andb_prop in Hacts as [Hs Hacts].
  apply negb_true_iff in Hs.
  destruct (allocated_unshared_perform a s Hs Ha Hu) as [Ha' Hu'].
  simpl. by apply IH.
Qed.

Lemma allocated_unshared_new c : entries_allocated (new c) ∧ entries_unshared (new c).
Proof. split; intros ?; intros; by simplify_map_eq. Qed.

Lemma push_other_entry_of_own_arrays c acts v karg k1 xs :
  forallb (λ a, negb (stores_array a)) acts = true →
  k1 ≠ default_param karg (most_recent_key (performs acts (new c))) →
  stored (performs acts (new c)) k1 = Some xs →
  stored (push v karg (performs acts (new c))).2 k1 = Some xs.
Proof.
  intros Hacts Hne Hs.
  destruct (allocated_unshared_new c) as [Ha Hu].
  destruct (allocated_unshared_performs acts _ Hacts Ha Hu) as [_ Hu'].
  apply push_other_entry; [done| |done].
  apply stored_Some in Hs as (l & Hd & _). rewrite Hd. intros Hd'.
  apply Hne. by eapply Hu'.
Qed.

(** C7, as the code has it: a [push] whose key (given, or taken from the
    last-used key) is not [k1] leaves the sequence stored for [k1] as it was,
    provided the entry of the pushed key is not the very array that is the
    entry of [k1].  Two keys hold one array only when it was put into the map
    from outside, by [rawSet] or by [set] on the map that [map()] returns:
    in a state reached from a new list by calls of the methods other than
    [rawSet], by writes of the caller to the arrays it got from [get] and
    [rawGet], and by [delete] and [clear] on the map that [map()] returns,
    no two keys share an array, and the [push] leaves the sequence of [k1]
    as it was. *)
Theorem push_frame :
  (∀ s v karg k1 xs,
     k1 ≠ default_param karg (most_recent_key s) →
     data s !! default_param karg (most_recent_key s) ≠ data s !! k1 →
     stored s k1 = Some xs →
     stored (push v karg s).2 k1 = Some xs) ∧
  (∀ c acts,
     forallb (λ a, negb (stores_array a)) acts = true →
     entries_unshared (performs acts (new c)) ∧
     ∀ v karg k1 xs,
       k1 ≠ default_param karg (most_recent_key (performs acts (new c))) →
       stored (performs acts (new c)) k1 = Some xs →
       stored (push v karg (performs acts (new c))).2 k1 = Some xs).
Proof.
  split.
  - apply push_other_entry.
  - intros c acts Hacts. split.
    + destruct (allocated_unshared_new c) as [Ha Hu].
      by destruct (allocated_unshared_performs acts _ Hacts Ha Hu).
    + intros v karg k1 xs. by apply push_other_entry_of_own_arrays.
Qed.

Lemma push_frame_witness :
  let s := performs [Method (CPush (VStr "a") (KStr "p1"));
                     Method (CPush (VStr "c") (KStr "p2"));
                     ArrayWrite 1%positive [VStr "x"];
                     MapDelete (KStr "p3")] (new 3) in
  stored (push (VStr "d") KUndefined s).2 (KStr "p1") = Some [VStr "x"].
Proof.
  intros s.
  apply (proj2 (proj2 push_frame 3
           [Method (CPush (VStr "a") (KStr "p1")); Method (CPush (VStr "c") (KStr "p2"));
            ArrayWrite 1%positive [VStr "x"]; MapDelete (KStr "p3")] eq_refl)
           (VStr "d") KUndefined (KStr "p1")).
  - discriminate.
  - reflexivity.
Defined.

(** ** The length of an entry *)

Lemma push_first s v karg k :
  default_param karg (most_recent_key s) = k → truthy k = true →
  data s !! k = None →
  stored (push v karg s).2 k = Some (replicate (maxSize s) (VNum 0) ++ [v]).
Proof.
  intros Hk Ht Hd. erewrite push_absent; [|done..].
  unfold stored. simpl. rewrite lookup_insert_eq. simpl.
  by rewrite lookup_insert_eq.
Qed.

Lemma push_next s v karg k xs :
  default_param karg (most_recent_key s) = k → truthy k = true →
  stored s k = Some xs → length xs = maxSize s + 1 →
  stored (push v karg s).2 k = Some (tail xs ++ [v]).
Proof.
  intros Hk Ht (l & Hd & Hh)%stored_Some Hlen.
  erewrite push_existing; [|done..].
  unfold stored. simpl. rewrite Hd. simpl. rewrite lookup_insert_eq.
  f_equal. by apply appended_full.
Qed.

Lemma entry_stays c s k :
  is_rawSet c = false → removes k c = false →
  is_Some (data s !! k) → is_Some (data (after c s) !! k).
Proof.
  intros Hc Hr Hs. destruct c; simpl in *; try done.
  - unfold get, bind, assign_most_recent_key, data_get. simpl.
    by destruct (data s !! key0).
  - set (k2 := default_param key0 (most_recent_key s)).
    destruct (truthy k2) eqn:Ht.
    + destruct (data s !! k2) as [l|] eqn:Hd.
      * destruct (heap s !! l) as [xs|] eqn:Hh.
        -- by erewrite push_existing.
        -- by erewrite push_dangling.
      * erewrite push_absent; [|reflexivity|done..]. simpl.
        rewrite lookup_insert. by case_decide.
    + by erewrite push_falsy.
  - apply orb_false_elim in Hr as [Ht Hne].
    apply negb_false_iff in Ht.
    assert (truthy key0 = true) as Ht' by (by destruct key0).
    rewrite removeData_truthy by done. simpl.
    rewrite lookup_delete_ne; [done|]. by apply bool_decide_eq_false in Hne.
  - by rewrite has_state.
  - by rewrite getSize_state.
Qed.

Lemma entry_stays_run cs s k :
  forallb (λ c, negb (is_rawSet c) && negb (removes k c)) cs = true →
  is_Some (data s !! k) → is_Some (data (run cs s) !! k).
Proof.
  revert s. induction cs as [|c cs IH]; intros s Hcs Hs; [done|].
  simpl in Hcs. apply andb_prop in Hcs as [Hc Hcs].
  apply andb_prop in Hc as [Hc Hr].
  apply negb_true_iff in Hc. apply negb_true_iff in Hr.
  simpl. apply IH; [done|]. by apply entry_stays.
Qed.

Lemma run_app cs1 cs2 s : run (cs1 ++ cs2) s = run cs2 (run cs1 s).
Proof. unfold run. apply foldl_app. Qed.

Lemma forallb_weaken {A} (f g : A → bool) (xs : list A) :
  (∀ x, f x = true → g x = true) → forallb f xs = true → forallb g xs = true.
Proof.
  intros Hfg. induction xs as [|x xs IH]; simpl; [done|].
  intros [Hx Hxs]%andb_prop. rewrite (Hfg _ Hx). simpl. by apply IH.
Qed.

(** C9: the first [push] for a key appends to an array of [maxSize] zeros
    and does not trim; a [push] on an entry of length [maxSize + 1] appends
    one value and removes the first; so once a [push] for a key has
    happened, and as long as no [rawSet] is called and no removal deletes
    the key's entry, the sequence stored for the key has length exactly
    [maxSize + 1]. *)
Theorem entry_length_is_maxSize_plus_1 :
  (∀ s v karg k,
     default_param karg (most_recent_key s) = k → truthy k = true →
     data s !! k = None →
     stored (push v karg s).2 k = Some (replicate (maxSize s) (VNum 0) ++ [v])) ∧
  (∀ s v karg k xs,
     default_param karg (most_recent_key s) = k → truthy k = true →
     stored s k = Some xs → length xs = maxSize s + 1 →
     stored (push v karg s).2 k = Some (tail xs ++ [v]) ∧
     length (tail xs ++ [v]) = maxSize s + 1) ∧
  (∀ c cs v karg k cs',
     forallb (λ c, negb (is_rawSet c)) cs = true →
     default_param karg (most_recent_key (run cs (new c))) = k →
     truthy k = true →
     forallb (λ c, negb (is_rawSet c) && negb (removes k c)) cs' = true →
     ∃ xs, stored (run (cs ++ CPush v karg :: cs') (new c)) k = Some xs ∧
           length xs = c + 1).
Proof.
  split; [|split].
  - apply push_first.
  - intros s v karg k xs Hk Ht Hs Hlen. split; [by apply push_next|].
    destruct xs; simpl in *; [lia|]. rewrite length_app. simpl. lia.
  - intros c cs v karg k cs' Hcs Hk Ht Hcs'.
    rewrite run_app. simpl.
    destruct (full_unshared_new c) as [Hf Hu].
    destruct (full_unshared_run cs _ Hcs Hf Hu) as (Hf1 & Hu1 & Hm1).
    set (s1 := run cs (new c)) in *.
    destruct (full_unshared_push v karg s1 Hf1 Hu1) as (Hf2 & Hu2 & Hm2).
    assert (is_Some (data (push v karg s1).2 !! k)) as Hs2.
    { destruct (data s1 !! k) as [l|] eqn:Hd.
      - destruct (Hf1 _ _ Hd) as (xs & Hh & _).
        erewrite push_existing; [|done..]. simpl. by rewrite Hd.
      - erewrite push_absent; [|done..]. simpl. by rewrite lookup_insert_eq. }
    assert (forallb (λ c, negb (is_rawSet c)) cs' = true) as Hcs''.
    { revert Hcs'. apply forallb_weaken. by intros x [? _]%andb_prop. }
    destruct (full_unshared_run cs' _ Hcs'' Hf2 Hu2) as (Hf3 & _ & Hm3).
    destruct (entry_stays_run cs' _ k Hcs' Hs2) as [l Hd3].
    destruct (Hf3 _ _ Hd3) as (xs & Hh3 & Hlen3).
    exists xs. split.
    + apply stored_Some. by exists l.
    + rewrite Hlen3, Hm3, Hm2, Hm1. done.
Qed.

Lemma entry_length_witness :
  ∃ xs, stored (run ([CGet (KStr "p1")] ++ CPush (VStr "a") KUndefined ::
                     [CPush (VStr "b") (KStr "p1"); CRemoveData (KStr "p2");
                      CPush (VStr "c") (KStr "p2")]) (new 3)) (KStr "p1") = Some xs ∧
        length xs = 3 + 1.
Proof.
  apply (proj2 (proj2 entry_length_is_maxSize_plus_1) 3 [CGet (KStr "p1")]
           (VStr "a") KUndefined (KStr "p1")); reflexivity.
Defined.

(** ** The first [push] does not trim *)

Lemma push_maxSize v karg s : maxSize (push v karg s).2 = maxSize s.
Proof.
  set (k := default_param karg (most_recent_key s)).
  destruct (truthy k) eqn:Ht.
  - destruct (data s !! k) as [l|] eqn:Hd.
    + destruct (heap s !! l) as [xs|] eqn:Hh.
      * by erewrite push_existing.
      * by erewrite push_dangling.
    + by erewrite push_absent.
  - by erewrite push_falsy.
Qed.

Lemma pushes_snoc vs v k s : pushes (vs ++ [v]) k s = (push v k (pushes vs k s)).2.
Proof. unfold pushes. by rewrite foldl_app. Qed.

Lemma pushes_maxSize vs k s : maxSize (pushes vs k s) = maxSize s.
Proof.
  induction vs as [|v vs IH] using rev_ind; [done|].
  by rewrite pushes_snoc, push_maxSize.
Qed.

Lemma tail_drop {A} (n : nat) (ys : list A) : tail (drop n ys) = drop (S n) ys.
Proof.
  revert n. induction ys as [|y ys IH]; intros [|n]; simpl; done.
Qed.

Lemma pushes_stored k s v vs :
  truthy k = true → data s !! k = None →
  stored (pushes (v :: vs) k s) k =
    Some (drop (length vs) (replicate (maxSize s) (VNum 0) ++ v :: vs)).
Proof.
  intros Ht Hd. induction vs as [|w vs IH] using rev_ind.
  - simpl. apply push_first; [by apply truthy_default_param|done..].
  - rewrite app_comm_cons, pushes_snoc.
    erewrite push_next; [|by apply truthy_default_param|done|exact IH|].
    + f_equal. rewrite tail_drop, length_app. simpl.
      rewrite Nat.add_1_r, app_comm_cons, app_assoc.
      symmetry. apply drop_app_le.
      rewrite length_app, length_replicate. simpl. lia.
    + rewrite length_drop, length_app, length_replicate, pushes_maxSize.
      simpl. lia.
Qed.

Lemma read_stored k s xs : stored s k = Some xs → read k s = Some xs.
Proof.
  intros (l & Hd & Hh)%stored_Some. unfold read.
  by rewrite (get_existing k s l).
Qed.

(** C1 fails on the code: after the first [push] for a key that has no
    entry, [getSize] of the key returns [maxSize + 1], one more than the
    capacity. *)
Theorem getSize_after_first_push s v karg k :
  default_param karg (most_recent_key s) = k → truthy k = true →
  data s !! k = None →
  getSize k (push v karg s).2 = (Return (maxSize s + 1), (push v karg s).2).
Proof.
  intros Hk Ht Hd.
  erewrite getSize_stored;
    [|by apply truthy_default_param|done|by apply push_first].
  rewrite length_app, length_replicate. simpl. done.
Qed.

Lemma getSize_after_first_push_capacity_5 :
  let s := (push (VStr "v") (KStr "k") (new 5)).2 in
  getSize (KStr "k") s = (Return 6, s).
Proof.
  intros s. apply (getSize_after_first_push (new 5) (VStr "v") (KStr "k") (KStr "k"));
    reflexivity.
Defined.

(** C2 fails on the code: after any non-empty sequence of [push] calls for
    a key, on a new list of capacity [c], the sequence stored for the key is
    longer than [c]. *)
Theorem stored_longer_than_maxSize c k v vs :
  truthy k = true →
  ∃ xs, stored (pushes (v :: vs) k (new c)) k = Some xs ∧ length xs = c + 1 ∧ c < length xs.
Proof.
  intros Ht. eexists. split; [by apply pushes_stored|].
  rewrite length_drop, length_app, length_replicate. simpl. lia.
Qed.

Lemma stored_longer_than_maxSize_capacity_3 :
  ∃ xs, stored (pushes [VStr "a"] (KStr "p1") (new 3)) (KStr "p1") = Some xs ∧
        length xs = 3 + 1 ∧ 3 < length xs.
Proof. apply (stored_longer_than_maxSize 3 (KStr "p1") (VStr "a") []). reflexivity. Defined.

(** C3 fails on the code: after [n > c] calls of [push] for a key, on a new
    list of capacity [c], [get] of the key returns the last [c + 1] values,
    [v_{n-c}..v_n], which is one value more than the [c] values
    [v_{n-c+1}..v_n]. *)
Theorem read_after_pushes c vs k :
  truthy k = true → c < length vs →
  read k (pushes vs k (new c)) = Some (drop (length vs - (c + 1)) vs) ∧
  length (drop (length vs - (c + 1)) vs) = c + 1.
Proof.
  intros Ht Hlen. destruct vs as [|v vs]; simpl in Hlen; [lia|].
  split.
  - apply read_stored. rewrite pushes_stored by done. f_equal. simpl maxSize.
    rewrite drop_app_ge by (rewrite length_replicate; lia).
    rewrite length_replicate. f_equal. simpl. lia.
  - rewrite length_drop. simpl. lia.
Qed.

Lemma read_after_pushes_capacity_2 :
  read (KStr "k") (pushes [VStr "v1"; VStr "v2"; VStr "v3"] (KStr "k") (new 2)) =
    Some [VStr "v1"; VStr "v2"; VStr "v3"].
Proof.
  apply (proj1 (read_after_pushes 2 [VStr "v1"; VStr "v2"; VStr "v3"] (KStr "k")
                  eq_refl (le_n 3))).
Defined.

(** * More about [IList] *)

(** ** The list behaves as a map from keys to sequences *)

Lemma stored_None s k :
  entries_full s → (stored s k = None ↔ data s !! k = None).
Proof.
  intros Hf. unfold stored. destruct (data s !! k) as [l|] eqn:Hd; simpl; [|done].
  destruct (Hf _ _ Hd) as (xs & -> & _). done.
Qed.

Lemma stored_alloc s k ys k' :
  entries_full s →
  stored (mk (<[fresh (dom (heap s)) := ys]> (heap s)) (maxSize s) (data s) k') k =
    stored s k.
Proof.
  intros Hf. unfold stored. simpl.
  destruct (data s !! k) as [l|] eqn:Hd; simpl; [|done].
  destruct (Hf _ _ Hd) as (xs & Hh & _).
  rewrite lookup_insert_ne; [done|]. apply not_eq_sym. by eapply fresh_not_allocated.
Qed.

Lemma represents_after c s a :
  is_rawSet c = false → entries_full s → entries_unshared s →
  represents s a → represents (after c s) (plain_after c a).
Proof.
  intros Hc Hf Hu (Hm & Hk & Hst).
  destruct c; simpl; try done.
  - (* get *)
    destruct (data s !! key0) as [l|] eqn:Hd.
    + by rewrite (get_existing _ _ _ Hd).
    + rewrite get_absent by done. simpl. split; [done|]. split; [done|].
      intros k. by rewrite stored_alloc.
  - (* push *)
    rewrite <- Hk, <- Hm.
    set (k2 := default_param key0 (most_recent_key s)).
    destruct (truthy k2) eqn:Ht.
    + destruct (data s !! k2) as [l|] eqn:Hd.
      * destruct (Hf _ _ Hd) as (xs & Hh & Hlen).
        erewrite push_existing; [|reflexivity|done..].
        split; [done|]. split; [done|]. intros k. simpl.
        rewrite <- (Hst k2). unfold stored at 2. rewrite Hd. simpl. rewrite Hh.
        rewrite lookup_insert. case_decide as Hkk.
        -- subst k. unfold stored. simpl. rewrite Hd. simpl.
           by rewrite lookup_insert_eq.
        -- rewrite <- Hst. unfold stored. simpl.
           destruct (data s !! k) as [l'|] eqn:Hd'; simpl; [|done].
           rewrite lookup_insert_ne; [done|]. intros ->.
           apply Hkk. by eapply Hu.
      * erewrite push_absent; [|reflexivity|done..].
        split; [done|]. split; [done|]. intros k. simpl.
        rewrite <- (Hst k2).
        assert (stored s k2 = None) as -> by (by apply stored_None).
        rewrite lookup_insert. case_decide as Hkk.
        -- subst k. unfold stored. simpl. rewrite lookup_insert_eq. simpl.
           by rewrite lookup_insert_eq.
        -- rewrite <- Hst. unfold stored. simpl.
           rewrite lookup_insert_ne by done.
           destruct (data s !! k) as [l'|] eqn:Hd'; simpl; [|done].
           destruct (Hf _ _ Hd') as (xs & Hh & _).
           rewrite lookup_insert_ne; [done|].
           apply not_eq_sym. by eapply fresh_not_allocated.
    + by erewrite push_falsy.
  - (* removeData *)
    destruct (truthy (default_param key0 KNull)) eqn:Ht.
    + assert (truthy key0 = true) as Ht' by (by destruct key0).
      rewrite removeData_truthy by done.
      rewrite (truthy_default_param _ _ Ht').
      split; [done|]. split; [done|]. intros k. simpl.
      rewrite lookup_delete. unfold stored. simpl. rewrite lookup_delete.
      case_decide; [done|]. apply Hst.
    + rewrite removeData_falsy by done.
      split; [done|]. split; [done|]. intros k. unfold stored. simpl.
      by rewrite !lookup_empty.
  - by rewrite has_state.
  - by rewrite getSize_state.
  - (* an array literal of the caller *)
    split; [done|]. split; [done|]. intros k.
    rewrite <- Hst. destruct s. by apply (stored_alloc (mk _ _ _ _)).
Qed.

Lemma full_unshared_perform a s :
  arrays_by_push a = true →
  entries_full s → entries_unshared s →
  entries_full (perform a s) ∧ entries_unshared (perform a s) ∧
  maxSize (perform a s) = maxSize s.
Proof.
  intros Hb Hf Hu. destruct a as [c|a xs|k a|k|]; simpl in *; try done.
  - apply full_unshared_after; [by apply negb_true_iff|done..].
  - split; [|split; [|done]].
    + intros k' l'. simpl. rewrite lookup_delete. case_decide; [done|]. apply Hf.
    + intros k1 k2 l'. simpl. rewrite !lookup_delete.
      repeat case_decide; try done. apply Hu.
Qed.

Lemma full_unshared_performs acts s :
  forallb arrays_by_push acts = true →
  entries_full s → entries_unshared s →
  entries_full (performs acts s) ∧ entries_unshared (performs acts s) ∧
  maxSize (performs acts s) = maxSize s.
Proof.
  revert s. induction acts as [|a acts IH]; intros s Hacts Hf Hu; [done|].
  simpl in Hacts. apply andb_prop in Hacts as [Hb Hacts].
  destruct (full_unshared_perform a s Hb Hf Hu) as (Hf' & Hu' & Hm).
  simpl. destruct (IH (perform a s) Hacts Hf' Hu') as (? & ? & ->). done.
Qed.

Lemma represents_perform a s p :
  arrays_by_push a = true → entries_full s → entries_unshared s →
  represents s p → represents (perform a s) (plain_perform a p).
Proof.
  intros Hb Hf Hu Hr. destruct a as [c|a xs|k a|k|]; simpl in *; try done.
  - apply represents_after; [by apply negb_true_iff|done..].
  - destruct Hr as (Hm & Hk & Hst).
    split; [done|]. split; [done|]. intros k'. simpl.
    rewrite lookup_delete. unfold stored. simpl. rewrite lookup_delete.
    case_decide; [done|]. apply Hst.
  - destruct Hr as (Hm & Hk & Hst).
    split; [done|]. split; [done|]. intros k'. unfold stored. simpl.
    by rewrite !lookup_empty.
Qed.

Lemma represents_performs acts s p :
  forallb arrays_by_push acts = true →
  entries_full s → entries_unshared s →
  represents s p → represents (performs acts s) (plain_performs acts p).
Proof.
  revert s p. induction acts as [|a acts IH]; intros s p Hacts Hf Hu Hr; [done|].
  simpl in Hacts. apply andb_prop in Hacts as [Hb Hacts].
  destruct (full_unshared_perform a s Hb Hf Hu) as (Hf' & Hu' & _).
  simpl. apply IH; [done..|]. by apply represents_perform.
Qed.

(** X1: as long as the arrays are left to [push], the list behaves as a map
    from keys to sequences.  In a state reached from a new list by calls of
    the methods other than [rawSet] and by [delete] and [clear] on the map
    that [map()] returns (no [set] on that map, and no change by the caller
    to the arrays it gets from [get] and [rawGet]), the sequence stored for
    each key, the capacity and the last-used key are those of the plain list
    after the same steps; and for a non-empty string key [has], [getSize]
    and the array returned by [get] are read off the plain map. *)
Theorem run_is_plain_run c acts :
  forallb arrays_by_push acts = true →
  represents (performs acts (new c)) (plain_performs acts (plain_new c)) ∧
  ∀ k, truthy k = true →
    has k (performs acts (new c)) =
      (Return (bool_decide (is_Some (plain_data (plain_performs acts (plain_new c)) !! k))),
       performs acts (new c)) ∧
    getSize k (performs acts (new c)) =
      (Return (from_option length 0 (plain_data (plain_performs acts (plain_new c)) !! k)),
       performs acts (new c)) ∧
    read k (performs acts (new c)) =
      Some (default (replicate c (VNum 0))
              (plain_data (plain_performs acts (plain_new c)) !! k)).
Proof.
  intros Hacts.
  destruct (full_unshared_new c) as [Hf Hu].
  destruct (full_unshared_performs acts _ Hacts Hf Hu) as (Hf' & _ & Hm).
  assert (represents (new c) (plain_new c)) as Hr0.
  { split; [done|]. split; [done|]. intros k. unfold stored. simpl.
    by rewrite !lookup_empty. }
  pose proof (represents_performs acts _ _ Hacts Hf Hu Hr0) as Hr.
  split; [done|]. intros k Ht. destruct Hr as (_ & _ & Hst).
  set (s := performs acts (new c)) in *. rewrite <- Hst.
  destruct (stored s k) as [xs|] eqn:Hs.
  - split; [|split].
    + erewrite has_truthy; [|by apply truthy_default_param|done].
      apply stored_Some in Hs as (l & -> & _). by rewrite bool_decide_true.
    + by erewrite getSize_stored; [|by apply truthy_default_param|done|done].
    + by apply read_stored.
  - apply stored_None in Hs; [|done]. split; [|split].
    + erewrite has_truthy; [|by apply truthy_default_param|done].
      rewrite Hs. by rewrite bool_decide_false by (by intros [? ?]).
    + by erewrite getSize_absent; [|by apply truthy_default_param|done|done].
    + unfold read. rewrite get_absent by done. simpl.
      rewrite lookup_insert_eq. by rewrite Hm.
Qed.

Lemma run_is_plain_run_witness :
  read (KStr "p1")
    (performs [Method (CPush (VStr "a") (KStr "p1")); Method (CGet (KStr "p2"));
               Method (CPush (VStr "b") KUndefined); MapDelete (KStr "p2");
               Method (CPush (VStr "c") (KStr "p1"))] (new 2)) =
    Some [VNum 0; VStr "a"; VStr "c"].
Proof.
  apply (proj2 (run_is_plain_run 2
    [Method (CPush (VStr "a") (KStr "p1")); Method (CGet (KStr "p2"));
     Method (CPush (VStr "b") KUndefined); MapDelete (KStr "p2");
     Method (CPush (VStr "c") (KStr "p1"))] eq_refl) (KStr "p1") eq_refl).
Defined.

(** X2: as long as the arrays are left to [push], that is in a state
    reached from a new list by calls of the methods other than [rawSet] and
    by [delete] and [clear] on the map that [map()] returns (no [set] on
    that map, and no change by the caller to an array it got from [get] or
    [rawGet]), [getSize] of a non-empty string key knows two answers only: 0
    when the key has no entry ([has] is false), and [maxSize + 1] when it
    has one ([has] is true). *)
Theorem getSize_is_0_or_maxSize_plus_1 c acts k :
  forallb arrays_by_push acts = true → truthy k = true →
  (has k (performs acts (new c)) = (Return false, performs acts (new c)) ∧
   getSize k (performs acts (new c)) = (Return 0, performs acts (new c))) ∨
  (has k (performs acts (new c)) = (Return true, performs acts (new c)) ∧
   getSize k (performs acts (new c)) = (Return (c + 1), performs acts (new c))).
Proof.
  intros Hacts Ht.
  destruct (full_unshared_new c) as [Hf Hu].
  destruct (full_unshared_performs acts _ Hacts Hf Hu) as (Hf' & _ & Hm).
  set (s := performs acts (new c)) in *.
  destruct (data s !! k) as [l|] eqn:Hd.
  - right. destruct (Hf' _ _ Hd) as (xs & Hh & Hlen). split.
    + erewrite has_truthy; [|by apply truthy_default_param|done].
      rewrite Hd. by rewrite bool_decide_true.
    + erewrite getSize_stored; [|by apply truthy_default_param|done|].
      * by rewrite Hlen, Hm.
      * apply stored_Some. by exists l.
  - left. split.
    + erewrite has_truthy; [|by apply truthy_default_param|done].
      rewrite Hd. by rewrite bool_decide_false by (by intros [? ?]).
    + by erewrite getSize_absent; [|by apply truthy_default_param|done|done].
Qed.

Lemma getSize_is_0_or_maxSize_plus_1_witness :
  let s := performs [Method (CPush (VStr "a") (KStr "p1"));
                     Method (CPush (VStr "b") KUndefined); MapDelete (KStr "p2")] (new 3) in
  (has (KStr "p1") s = (Return false, s) ∧ getSize (KStr "p1") s = (Return 0, s)) ∨
  (has (KStr "p1") s = (Return true, s) ∧ getSize (KStr "p1") s = (Return (3 + 1), s)).
Proof.
  apply (getSize_is_0_or_maxSize_plus_1 3
    [Method (CPush (VStr "a") (KStr "p1")); Method (CPush (VStr "b") KUndefined);
     MapDelete (KStr "p2")] (KStr "p1")); reflexivity.
Defined.

(** ** [rawSet] and the capacity *)

(** X3: [rawSet] makes the array it is given the entry of the key, as it
    is: [rawGet] and [get] return the array itself and the sequence stored
    for the key is its content, whatever its length; the entries of the other
    keys and the last-used key stay.  For a non-empty string key, [has] then
    returns true and [getSize] the length of the array.  For a falsy key (the
    empty string, [null], [undefined]) the entry is there all the same, but
    [has] and [getSize] of that key throw the missing-key error as long as
    no non-empty last-used key is set. *)
Theorem rawSet_entry_as_is s k a xs :
  heap s !! a = Some xs →
  rawGet k (rawSet k a s).2 = (Return (Some a), (rawSet k a s).2) ∧
  (get k (rawSet k a s).2).1 = Return a ∧
  stored (rawSet k a s).2 k = Some xs ∧
  most_recent_key (rawSet k a s).2 = most_recent_key s ∧
  (∀ k', k' ≠ k → stored (rawSet k a s).2 k' = stored s k') ∧
  (truthy k = true →
     has k (rawSet k a s).2 = (Return true, (rawSet k a s).2) ∧
     getSize k (rawSet k a s).2 = (Return (length xs), (rawSet k a s).2)) ∧
  (truthy k = false → truthy (most_recent_key s) = false →
     has k (rawSet k a s).2 =
       (Throw (Error "Key must be provided or set before using has method."),
        (rawSet k a s).2) ∧
     getSize k (rawSet k a s).2 =
       (Throw (Error "Key must be provided or set before using getSize method."),
        (rawSet k a s).2)).
Proof.
  intros Hh. unfold rawSet, data_set. simpl.
  assert (data (set_data (<[k:=a]> (data s)) s) !! k = Some a) as Hd
    by (simpl; apply lookup_insert_eq).
  split; [|split; [|split; [|split; [|split; [|split]]]]].
  - unfold rawGet, data_get. simpl. by rewrite lookup_insert_eq.
  - by rewrite (get_existing _ _ _ Hd).
  - unfold stored. by rewrite Hd.
  - done.
  - intros k' Hne. unfold stored. simpl. by rewrite lookup_insert_ne.
  - intros Ht. split.
    + erewrite has_truthy; [|by apply truthy_default_param|done].
      rewrite Hd. by rewrite bool_decide_true.
    + erewrite getSize_stored; [done|by apply truthy_default_param|done|].
      unfold stored. rewrite Hd. done.
  - intros Ht Hm.
    assert (truthy (default_param k (most_recent_key s)) = false) as Hk
      by (by destruct k).
    split; [by apply has_throws | by apply getSize_throws].
Qed.

Lemma rawSet_entry_as_is_witness :
  let s := (Array_literal [VStr "a"; VStr "b"; VStr "c"; VStr "d"; VStr "e"] (new 2)).2 in
  getSize (KStr "p1") (rawSet (KStr "p1") 1%positive s).2 =
    (Return 5, (rawSet (KStr "p1") 1%positive s).2) ∧
  getSize (KStr EmptyString) (rawSet (KStr EmptyString) 1%positive s).2 =
    (Throw (Error "Key must be provided or set before using getSize method."),
     (rawSet (KStr EmptyString) 1%positive s).2).
Proof.
  intros s. split.
  - destruct (rawSet_entry_as_is s (KStr "p1") 1%positive
                [VStr "a"; VStr "b"; VStr "c"; VStr "d"; VStr "e"] eq_refl)
      as (_ & _ & _ & _ & _ & H & _).
    exact (proj2 (H eq_refl)).
  - destruct (rawSet_entry_as_is s (KStr EmptyString) 1%positive
                [VStr "a"; VStr "b"; VStr "c"; VStr "d"; VStr "e"] eq_refl)
      as (_ & _ & _ & _ & _ & _ & H).
    exact (proj2 (H eq_refl eq_refl)).
Defined.




(** ** References handed out by [get] *)







(** ** Falsy keys *)

(** X8: a [push] with a falsy key that is given (the empty string, [null])
    throws the missing-key error and stores nothing, yet it has already made
    the falsy key the last-used key: the last-used key that was set before
    is lost, and [push], [has] and [getSize] without key throw from then
    on. *)
Theorem push_falsy_key_loses_last_used_key s v k :
  k ≠ KUndefined → truthy k = false →
  (push v k s).1 =
    Throw (Error "Key must be provided or set before using set method.") ∧
  data (push v k s).2 = data s ∧
  heap (push v k s).2 = heap s ∧
  most_recent_key (push v k s).2 = k ∧
  (∀ v', (push v' KUndefined (push v k s).2).1 =
           Throw (Error "Key must be provided or set before using set method.")) ∧
  (has KUndefined (push v k s).2).1 =
    Throw (Error "Key must be provided or set before using has method.") ∧
  (getSize KUndefined (push v k s).2).1 =
    Throw (Error "Key must be provided or set before using getSize method.").
Proof.
  intros Hk Ht.
  assert (default_param k (most_recent_key s) = k) as Hdp by (by destruct k).
  rewrite (push_falsy v k s k Hdp Ht). simpl.
  split; [done|]. split; [done|]. split; [done|]. split; [done|].
  split; [|split].
  - intros v'.
    by rewrite (push_falsy v' KUndefined (set_most_recent_key k s) k eq_refl Ht).
  - by rewrite has_throws.
  - by rewrite getSize_throws.
Qed.

Lemma push_falsy_key_loses_last_used_key_witness :
  let s := (push (VStr "a") (KStr "p1") (new 2)).2 in
  most_recent_key s = KStr "p1" ∧
  (push (VStr "c") KUndefined (push (VStr "b") (KStr EmptyString) s).2).1 =
    Throw (Error "Key must be provided or set before using set method.").
Proof.
  intros s. split; [reflexivity|].
  destruct (push_falsy_key_loses_last_used_key s (VStr "b") (KStr EmptyString))
    as (_ & _ & _ & _ & H & _); [discriminate | reflexivity |].
  exact (H (VStr "c")).
Defined.

(** X9: with a falsy key that is given and a last-used key that is set,
    [has] answers for the last-used key, whereas [getSize] answers for the
    falsy key itself (and returns 0 when that key has no entry): the two
    need not agree. *)
Theorem has_and_getSize_of_falsy_key s k :
  k ≠ KUndefined → truthy k = false → truthy (most_recent_key s) = true →
  has k s = (Return (bool_decide (is_Some (data s !! most_recent_key s))), s) ∧
  (data s !! k = None → getSize k s = (Return 0, s)) ∧
  (∀ xs, stored s k = Some xs → getSize k s = (Return (length xs), s)).
Proof.
  intros Hk Ht Hm.
  assert (default_param k (most_recent_key s) = k) as Hdp by (by destruct k).
  split; [|split].
  - unfold has, bind, this_most_recent_key, data_has, or_else. simpl.
    by rewrite Hdp, Ht, Hm.
  - intros Hd. unfold getSize, bind, this_most_recent_key, data_has, ret. simpl.
    rewrite Hdp, Ht, Hm. simpl. rewrite Hd.
    by rewrite bool_decide_false by (by intros [? ?]).
  - intros xs (l & Hd & Hh)%stored_Some.
    unfold getSize, bind, this_most_recent_key, data_has, data_get, Array_length. simpl.
    rewrite Hdp, Ht, Hm. simpl. rewrite Hd.
    rewrite bool_decide_true by eauto. simpl. rewrite Hd. by rewrite Hh.
Qed.

Lemma has_and_getSize_of_falsy_key_witness :
  let s := (push (VStr "a") (KStr "p1") (new 2)).2 in
  has (KStr EmptyString) s = (Return true, s) ∧
  getSize (KStr EmptyString) s = (Return 0, s).
Proof.
  intros s.
  destruct (has_and_getSize_of_falsy_key s (KStr EmptyString))
    as (H1 & H2 & _); [discriminate | reflexivity | reflexivity |].
  split; [exact H1 | exact (H2 eq_refl)].
Defined.

(** ** Removing, once more *)

(** X10: [removeData] of a non-empty string key leaves the sequences of all
    other keys and the last-used key as they were, and a second
    [removeData] of the same key returns [false]. *)
Theorem removeData_other_keys s k :
  truthy k = true →
  (∀ k', k' ≠ k → stored (removeData k s).2 k' = stored s k') ∧
  most_recent_key (removeData k s).2 = most_recent_key s ∧
  removeData k (removeData k s).2 = (Return (Some false), (removeData k s).2).
Proof.
  intros Ht. rewrite removeData_truthy by done. simpl.
  split; [|split; [done|]].
  - intros k' Hne. unfold stored. simpl. by rewrite lookup_delete_ne.
  - rewrite removeData_truthy by done. simpl.
    rewrite lookup_delete_eq.
    rewrite bool_decide_false by (by intros [? ?]).
    unfold set_data. simpl. by rewrite delete_delete_eq.
Qed.

Lemma removeData_other_keys_witness :
  let s := run [CPush (VStr "a") (KStr "p1"); CPush (VStr "b") (KStr "p2")] (new 2) in
  stored (removeData (KStr "p1") s).2 (KStr "p2") = Some [VNum 0; VNum 0; VStr "b"] ∧
  removeData (KStr "p1") (removeData (KStr "p1") s).2 =
    (Return (Some false), (removeData (KStr "p1") s).2).
Proof.
  intros s.
  destruct (removeData_other_keys s (KStr "p1") eq_refl) as (H1 & _ & H2).
  split; [|exact H2].
  exact (H1 (KStr "p2") ltac:(discriminate)).
Defined.

(** ** What is pushed, and what is never done *)

Lemma appended_last n xs v :
  (xs = [] → n = 0 → appended n xs v = []) ∧
  (xs ≠ [] ∨ 0 < n → ∃ ys, appended n xs v = ys ++ [v]).
Proof.
  unfold appended. split.
  - intros -> ->. reflexivity.
  - intros H. case_bool_decide as Hlen; [|by exists xs].
    destruct xs as [|x xs]; simpl in *.
    + destruct H as [H|H]; [done|lia].
    + by exists xs.
Qed.

(** X11: after a [push] of [v], [v] is the last value of the sequence stored
    for the pushed key, in every state, whatever values the entry held
    before; the one exception is a list of capacity 0 whose entry is an empty
    array, where [v] is removed at once.  As long as the arrays are left to
    [push], that is in a state reached from a new list by calls of the
    methods other than [rawSet] and by [delete] and [clear] on the map that
    [map()] returns (no [set] on that map, and no change by the caller to an
    array it got from [get] or [rawGet]), [get] of the pushed key then
    returns [maxSize] earlier values (or zeros) followed by [v]. *)
Theorem pushed_value_is_last :
  (∀ s v karg k,
     default_param karg (most_recent_key s) = k → truthy k = true →
     (data s !! k = None →
        (push v karg s).1 = Return () ∧
        stored (push v karg s).2 k = Some (replicate (maxSize s) (VNum 0) ++ [v])) ∧
     (∀ xs, stored s k = Some xs →
        (push v karg s).1 = Return () ∧
        (xs = [] → maxSize s = 0 → stored (push v karg s).2 k = Some []) ∧
        (xs ≠ [] ∨ 0 < maxSize s →
           ∃ ys, stored (push v karg s).2 k = Some (ys ++ [v])))) ∧
  (∀ c acts v karg k,
     forallb arrays_by_push acts = true →
     default_param karg (most_recent_key (performs acts (new c))) = k →
     truthy k = true →
     (push v karg (performs acts (new c))).1 = Return () ∧
     ∃ xs, read k (push v karg (performs acts (new c))).2 = Some (xs ++ [v]) ∧
           length xs = c).
Proof.
  split.
  - intros s v karg k Hk Ht. split.
    + intros Hd. split; [by erewrite push_absent|by apply push_first].
    + intros xs (l & Hd & Hh)%stored_Some.
      assert (stored (push v karg s).2 k = Some (appended (maxSize s) xs v)) as Hst.
      { erewrite push_existing; [|done..].
        unfold stored. simpl. rewrite Hd. simpl. by rewrite lookup_insert_eq. }
      destruct (appended_last (maxSize s) xs v) as [H0 H1].
      split; [by erewrite push_existing|]. split.
      * intros Hxs Hm. by rewrite Hst, H0.
      * intros H. destruct (H1 H) as [ys Hys]. exists ys. by rewrite Hst, Hys.
  - intros c acts v karg k Hacts Hk Ht.
    destruct (full_unshared_new c) as [Hf Hu].
    destruct (full_unshared_performs acts _ Hacts Hf Hu) as (Hf' & _ & Hm).
    set (s := performs acts (new c)) in *.
    destruct (data s !! k) as [l|] eqn:Hd.
    + destruct (Hf' _ _ Hd) as (xs & Hh & Hlen).
      split; [by erewrite push_existing|].
      exists (tail xs). split.
      * apply read_stored. apply push_next; [done..| |done].
        apply stored_Some. by exists l.
      * destruct xs; simpl in *; lia.
    + split; [by erewrite push_absent|].
      exists (replicate c (VNum 0)). split.
      * apply read_stored.
        assert (replicate c (VNum 0) = replicate (maxSize s) (VNum 0)) as ->
          by (by rewrite Hm).
        by apply push_first.
      * apply length_replicate.
Qed.

Lemma pushed_value_is_last_witness :
  ∃ xs, read (KStr "p1")
          (push (VStr "c") KUndefined
             (performs [Method (CPush (VStr "a") (KStr "p1"));
                        Method (CPush (VStr "b") KUndefined)] (new 2))).2 =
          Some (xs ++ [VStr "c"]) ∧ length xs = 2.
Proof.
  apply (proj2 pushed_value_is_last 2
           [Method (CPush (VStr "a") (KStr "p1")); Method (CPush (VStr "b") KUndefined)]
           (VStr "c") KUndefined (KStr "p1")); reflexivity.
Defined.

Lemma push_heap s v karg l xs :
  heap s !! l = Some xs → is_Some (heap (push v karg s).2 !! l).
Proof.
  intros Hh. set (k := default_param karg (most_recent_key s)).
  destruct (truthy k) eqn:Ht.
  - destruct (data s !! k) as [l2|] eqn:Hd.
    + destruct (heap s !! l2) as [ys|] eqn:Hh2.
      * erewrite push_existing; [|reflexivity|done..]. simpl.
        rewrite lookup_insert. case_decide; eauto.
      * erewrite push_dangling; [|reflexivity|done..]. simpl. eauto.
    + erewrite push_absent; [|reflexivity|done..]. simpl.
      rewrite lookup_insert_ne; [eauto|].
      apply not_eq_sym. by eapply fresh_not_allocated.
  - erewrite push_falsy; [|reflexivity|done]. simpl. eauto.
Qed.

(** X12: no call, [rawSet] included, changes the capacity or makes an array
    disappear, and only [push] writes to an array: after any other call
    every array has the content it had. *)
Theorem only_push_writes_arrays c s l xs :
  heap s !! l = Some xs →
  maxSize (after c s) = maxSize s ∧
  is_Some (heap (after c s) !! l) ∧
  (is_push c = false → heap (after c s) !! l = Some xs).
Proof.
  intros Hh.
  assert (l ≠ fresh (dom (heap s))) as Hne by (by eapply fresh_not_allocated).
  destruct c; simpl.
  - destruct (data s !! key0) as [l'|] eqn:Hd.
    + rewrite (get_existing _ _ _ Hd). simpl. eauto.
    + rewrite get_absent by done. simpl. rewrite lookup_insert_ne by done. eauto.
  - split; [apply push_maxSize|]. split; [by eapply push_heap|done].
  - destruct (truthy (default_param key0 KNull)) eqn:Ht.
    + assert (truthy key0 = true) as Ht' by (by destruct key0).
      rewrite removeData_truthy by done. simpl. eauto.
    + rewrite removeData_falsy by done. simpl. eauto.
  - rewrite has_state. eauto.
  - rewrite getSize_state. eauto.
  - eauto.
  - eauto.
  - eauto.
  - eauto.
  - eauto.
  - rewrite lookup_insert_ne by done. eauto.
Qed.

Lemma only_push_writes_arrays_witness :
  let s := (push (VStr "a") (KStr "p1") (new 2)).2 in
  heap (after CClear s) !! 1%positive = Some [VNum 0; VNum 0; VStr "a"].
Proof.
  intros s.
  destruct (only_push_writes_arrays CClear s 1%positive [VNum 0; VNum 0; VStr "a"] eq_refl)
    as (_ & _ & H).
  exact (H eq_refl).
Defined.

End IList_facts.

(** * Facts about [MathUtils.clamp] *)

Section MathUtils_facts.
Import MathUtils.
Local Open Scope float_scope.

Implicit Types (x y h : float) (a b : spec_float) (p q : Z * Z * Z).

(** ** The lexicographic order *)

Lemma lex_compare_spec p q :
  CompareSpec (p = q) (lex_lt p q) (lex_lt q p) (lex_compare p q).
Proof.
  destruct p as [[p1 p2] p3], q as [[q1 q2] q3].
  unfold lex_compare, lex_lt. simpl.
  destruct (Z.compare_spec p1 q1); [|constructor; lia..].
  destruct (Z.compare_spec p2 q2); [|constructor; lia..].
  destruct (Z.compare_spec p3 q3); constructor; [congruence|lia..].
Qed.

Lemma lex_lt_irrefl p : ¬ lex_lt p p.
Proof. unfold lex_lt. lia. Qed.

Lemma lex_lt_asym p q : lex_lt p q → ¬ lex_lt q p.
Proof. unfold lex_lt. lia. Qed.

Lemma lex_antisym p q : ¬ lex_lt p q → ¬ lex_lt q p → p = q.
Proof.
  destruct p as [[p1 p2] p3], q as [[q1 q2] q3]. unfold lex_lt. simpl.
  intros H1 H2. repeat f_equal; lia.
Qed.

Lemma lex_compare_Lt p q : lex_compare p q = Lt ↔ lex_lt p q.
Proof.
  pose proof (lex_lt_irrefl q). pose proof (lex_lt_asym p q).
  destruct (lex_compare_spec p q) as [->|H1|H1]; split; try done;
    intros H'; tauto.
Qed.

Lemma lex_compare_Gt p q : lex_compare p q = Gt ↔ lex_lt q p.
Proof.
  pose proof (lex_lt_irrefl q). pose proof (lex_lt_asym p q).
  destruct (lex_compare_spec p q) as [->|H1|H1]; split; try done;
    intros H'; tauto.
Qed.

(** ** The comparison of the specification is the lexicographic one *)

Lemma SFcompare_rank a b :
  a ≠ S754_nan → b ≠ S754_nan →
  SFcompare a b = Some (lex_compare (rank a) (rank b)).
Proof.
  intros Ha Hb.
  destruct a as [[]|[]| |[] m1 e1], b as [[]|[]| |[] m2 e2]; try done.
  simpl. unfold lex_compare. simpl.
  rewrite Z.compare_opp, (Z.compare_antisym e1 e2).
  by destruct (e1 ?= e2)%Z.
Qed.

(** ** The comparisons of the numbers *)

Lemma is_nan_false x : is_nan x = false ↔ Prim2SF x ≠ S754_nan.
Proof.
  unfold is_nan. rewrite FloatAxioms.eqb_spec. unfold SFeqb. split.
  - intros H Hx. rewrite Hx in H. done.
  - intros Hx. rewrite SFcompare_rank by done.
    destruct (lex_compare_spec (rank (Prim2SF x)) (rank (Prim2SF x))) as [_|H|H];
      [done|by apply lex_lt_irrefl in H..].
Qed.

Lemma ltb_place x y :
  is_nan x = false → is_nan y = false →
  ((x <? y) = true ↔ lex_lt (place x) (place y)).
Proof.
  intros Hx%is_nan_false Hy%is_nan_false.
  rewrite FloatAxioms.ltb_spec. unfold SFltb. rewrite SFcompare_rank by done.
  rewrite <- lex_compare_Lt. unfold place.
  by destruct (lex_compare _ _).
Qed.

Lemma ltb_place_false x y :
  is_nan x = false → is_nan y = false →
  ((x <? y) = false ↔ ¬ lex_lt (place x) (place y)).
Proof.
  intros Hx Hy. rewrite <- (ltb_place x y) by done. by destruct (x <? y).
Qed.

Lemma leb_place x y :
  is_nan x = false → is_nan y = false →
  ((x <=? y) = true ↔ ¬ lex_lt (place y) (place x)).
Proof.
  intros Hx%is_nan_false Hy%is_nan_false.
  rewrite FloatAxioms.leb_spec. unfold SFleb. rewrite SFcompare_rank by done.
  rewrite <- lex_compare_Gt. unfold place.
  by destruct (lex_compare _ _).
Qed.

Lemma eqb_place x y :
  is_nan x = false → is_nan y = false →
  ((x =? y) = true ↔ place x = place y).
Proof.
  intros Hx%is_nan_false Hy%is_nan_false.
  rewrite FloatAxioms.eqb_spec. unfold SFeqb. rewrite SFcompare_rank by done. unfold place.
  pose proof (lex_lt_irrefl (rank (Prim2SF y))).
  destruct (lex_compare_spec (rank (Prim2SF x)) (rank (Prim2SF y))) as [Heq|Hlt|Hlt];
    split; try done; intros Heq; rewrite Heq in Hlt; done.
Qed.

Lemma is_pos_zero_place x : is_pos_zero x = true → place x = (0, 0, 0)%Z.
Proof.
  unfold is_pos_zero, place. rewrite FloatAxioms.classify_spec.
  destruct (Prim2SF x) as [[]|[]| |[] m e]; simpl; try done;
    by repeat case_match.
Qed.

Lemma is_neg_zero_place x : is_neg_zero x = true → place x = (0, 0, 0)%Z.
Proof.
  unfold is_neg_zero, place. rewrite FloatAxioms.classify_spec.
  destruct (Prim2SF x) as [[]|[]| |[] m e]; simpl; try done;
    by repeat case_match.
Qed.

Lemma place_bounds x :
  is_nan x = false →
  ¬ lex_lt (place x) (place neg_infinity) ∧ ¬ lex_lt (place infinity) (place x).
Proof.
  intros Hx%is_nan_false. unfold place.
  change (Prim2SF neg_infinity) with (S754_infinity true).
  change (Prim2SF infinity) with (S754_infinity false).
  destruct (Prim2SF x) as [[]|[]| |[] m e]; try done; unfold lex_lt; simpl; lia.
Qed.

(** ** [Math.max] and [Math.min] are the lexicographic ones *)

Lemma max_step_place h x :
  is_nan h = false → is_nan x = false →
  is_nan (max_step h x) = false ∧
  place (max_step h x) = lex_max (place h) (place x).
Proof.
  intros Hh Hx. unfold max_step, lex_max.
  destruct (is_pos_zero x && is_neg_zero h) eqn:Hz.
  - apply andb_prop in Hz as [Hz1%is_pos_zero_place Hz2%is_neg_zero_place].
    split; [done|]. rewrite Hz1, Hz2. by case_decide.
  - destruct (h <? x) eqn:Hlt.
    + apply ltb_place in Hlt; [|done..]. by rewrite decide_True.
    + apply ltb_place_false in Hlt; [|done..]. by rewrite decide_False.
Qed.

Lemma min_step_place h x :
  is_nan h = false → is_nan x = false →
  is_nan (min_step h x) = false ∧
  place (min_step h x) = lex_min (place h) (place x).
Proof.
  intros Hh Hx. unfold min_step, lex_min.
  destruct (is_neg_zero x && is_pos_zero h) eqn:Hz.
  - apply andb_prop in Hz as [Hz1%is_neg_zero_place Hz2%is_pos_zero_place].
    split; [done|]. rewrite Hz1, Hz2. by case_decide.
  - destruct (x <? h) eqn:Hlt.
    + apply ltb_place in Hlt; [|done..]. by rewrite decide_True.
    + apply ltb_place_false in Hlt; [|done..]. by rewrite decide_False.
Qed.

Lemma Math_max_place x y :
  is_nan x = false → is_nan y = false →
  is_nan (Math_max x y) = false ∧
  place (Math_max x y) = lex_max (place x) (place y).
Proof.
  intros Hx Hy. unfold Math_max. rewrite Hx, Hy. simpl.
  destruct (max_step_place neg_infinity x eq_refl Hx) as [Hn Hp].
  destruct (max_step_place _ y Hn Hy) as [Hn' Hp'].
  split; [done|]. rewrite Hp', Hp.
  destruct (place_bounds x Hx) as [Hb _].
  f_equal. unfold lex_max. case_decide; [done|]. by apply lex_antisym.
Qed.

Lemma Math_min_place x y :
  is_nan x = false → is_nan y = false →
  is_nan (Math_min x y) = false ∧
  place (Math_min x y) = lex_min (place x) (place y).
Proof.
  intros Hx Hy. unfold Math_min. rewrite Hx, Hy. simpl.
  destruct (min_step_place infinity x eq_refl Hx) as [Hn Hp].
  destruct (min_step_place _ y Hn Hy) as [Hn' Hp'].
  split; [done|]. rewrite Hp', Hp.
  destruct (place_bounds x Hx) as [_ Hb].
  f_equal. unfold lex_min. case_decide; [done|]. by apply lex_antisym.
Qed.

(** ** [clamp] *)

Lemma lex_clamp pv pl ph :
  ¬ lex_lt ph pl →
  ¬ lex_lt (lex_max pl (lex_min ph pv)) pl ∧
  ¬ lex_lt ph (lex_max pl (lex_min ph pv)) ∧
  (¬ lex_lt pv pl → ¬ lex_lt ph pv → lex_max pl (lex_min ph pv) = pv) ∧
  (lex_lt pv pl → lex_max pl (lex_min ph pv) = pl) ∧
  (lex_lt ph pv → lex_max pl (lex_min ph pv) = ph).
Proof.
  destruct pv as [[v1 v2] v3], pl as [[l1 l2] l3], ph as [[h1 h2] h3].
  unfold lex_max, lex_min. intros Hr.
  repeat case_decide; unfold lex_lt in *; simpl in *;
    repeat split; intros; try lia; repeat f_equal; lia.
Qed.

(** C8: [clamp] throws a [TypeError] when one of the three arguments is
    not a number, throws an error when one of them is [NaN], throws an error
    when [min > max], and in every other case returns
    [Math.max(min, Math.min(max, value))], which is [value] clamped into
    the range from [min] to [max]. *)
Theorem clamp_spec :
  (∀ value min max,
     typeof_number value = false ∨ typeof_number min = false ∨
     typeof_number max = false →
     clamp value min max = Throw (TypeError "All parameters must be numbers.")) ∧
  (∀ value min max,
     isNaN value = true ∨ isNaN min = true ∨ isNaN max = true →
     clamp (VNum value) (VNum min) (VNum max) =
       Throw (Error "Parameters cannot be NaN.")) ∧
  (∀ value min max,
     isNaN value = false → isNaN min = false → isNaN max = false →
     gt min max = true →
     clamp (VNum value) (VNum min) (VNum max) =
       Throw (Error "Minimum value cannot be greater than maximum value.")) ∧
  (∀ value min max,
     isNaN value = false → isNaN min = false → isNaN max = false →
     gt min max = false →
     clamp (VNum value) (VNum min) (VNum max) =
       Return (VNum (Math_max min (Math_min max value))) ∧
     isNaN (Math_max min (Math_min max value)) = false ∧
     is_clamped value min max (Math_max min (Math_min max value))).
Proof.
  split; [|split; [|split]].
  - intros value min max H. unfold clamp.
    destruct H as [-> | [-> | ->]]; simpl; [done| |].
    + by rewrite orb_true_r.
    + by rewrite orb_true_r.
  - intros value min max H. unfold clamp. simpl.
    destruct H as [-> | [-> | ->]]; simpl; [done| |].
    + by rewrite orb_true_r.
    + by rewrite orb_true_r.
  - intros value min max Hv Hl Hh Hgt. unfold clamp. simpl.
    by rewrite Hv, Hl, Hh, Hgt.
  - intros value min max Hv Hl Hh Hgt. unfold isNaN in *.
    split; [unfold clamp, isNaN; simpl; by rewrite Hv, Hl, Hh, Hgt|].
    destruct (Math_min_place max value Hh Hv) as [Hn1 Hp1].
    destruct (Math_max_place min _ Hl Hn1) as [Hn2 Hp2].
    split; [done|]. rewrite Hp1 in Hp2.
    unfold gt in Hgt. apply ltb_place_false in Hgt; [|done..].
    destruct (lex_clamp (place value) (place min) (place max) Hgt)
      as (H1 & H2 & H3 & H4 & H5).
    rewrite <- Hp2 in H1, H2, H3, H4, H5.
    unfold is_clamped. split; [|split; [|split; [|split]]].
    + by apply leb_place.
    + by apply leb_place.
    + intros Ha%leb_place Hb%leb_place; [|done..].
      apply eqb_place; [done..|]. by apply H3.
    + intros Ha%ltb_place; [|done..]. apply eqb_place; [done..|]. by apply H4.
    + intros Ha%ltb_place; [|done..]. apply eqb_place; [done..|]. by apply H5.
Qed.

Lemma clamp_spec_witness :
  MathUtils.clamp (VStr "11") (VNum 1) (VNum 10) =
    Throw (TypeError "All parameters must be numbers.") ∧
  MathUtils.clamp (VNum 11) (VNum nan) (VNum 10) =
    Throw (Error "Parameters cannot be NaN.") ∧
  MathUtils.clamp (VNum 11) (VNum 10) (VNum 1) =
    Throw (Error "Minimum value cannot be greater than maximum value.") ∧
  MathUtils.clamp (VNum 11) (VNum 1) (VNum 10) = Return (VNum 10) ∧
  is_clamped 11 1 10 10.
Proof.
  destruct clamp_spec as (H1 & H2 & H3 & H4).
  split; [|split; [|split]].
  - apply H1. by left.
  - apply H2. right. by left.
  - by apply H3.
  - destruct (H4 11 1 10 eq_refl eq_refl eq_refl eq_refl) as (Hr & _ & Hc).
    split; [exact Hr | exact Hc].
Defined.

End MathUtils_facts.

(** * Facts about the distance functions *)

Section distance_facts.
Local Open Scope float_scope.

(** What the engine computes. *)
Variable Math_sqrt : float → float.
Variable Math_pow : float → float → float.
Variable exponentiate : float → float → float.
Variable StringToNumber : string → float.

Implicit Types (v : jsval) (a : MathUtils.arg).

(** ** [MathUtils.distance3d] *)

(** X13: [MathUtils.distance3d] called with two objects is the call with the
    six values of their properties [x], [y], [z]; the two objects followed
    by any further argument are not taken apart, and the call throws the
    [TypeError]. *)
Theorem distance3d_of_two_objects ax ay az bx by_ bz :
  MathUtils.distance3d Math_sqrt Math_pow
    [MathUtils.Object ax ay az; MathUtils.Object bx by_ bz] =
  MathUtils.distance3d Math_sqrt Math_pow
    [MathUtils.Prim ax; MathUtils.Prim ay; MathUtils.Prim az;
     MathUtils.Prim bx; MathUtils.Prim by_; MathUtils.Prim bz] ∧
  ∀ a rest,
    MathUtils.distance3d Math_sqrt Math_pow
      (MathUtils.Object ax ay az :: MathUtils.Object bx by_ bz :: a :: rest) =
    Throw (TypeError "All coordinates must be numbers.").
Proof. split; [by destruct ax|]. intros a rest. reflexivity. Qed.

Lemma as_number_Prim v x : MathUtils.as_number (MathUtils.Prim v) = Some x ↔ v = VNum x.
Proof. destruct v; simpl; split; congruence. Qed.

(** X14: [MathUtils.distance3d] called with primitive values throws the
    [TypeError] when there are fewer than six of them or when one of the
    first six is not a number ([null] and [undefined] included), throws the
    [NaN] error when the six are numbers and one is [NaN], and returns the
    square root of the sum of the three squares otherwise. *)
Theorem distance3d_of_primitives :
  (∀ vs : list jsval, length vs < 6 →
     MathUtils.distance3d Math_sqrt Math_pow (MathUtils.Prim <$> vs) =
       Throw (TypeError "All coordinates must be numbers.")) ∧
  (∀ (v1 v2 v3 v4 v5 v6 : jsval) (rest : list jsval),
     MathUtils.typeof_number v1 && MathUtils.typeof_number v2 &&
     MathUtils.typeof_number v3 && MathUtils.typeof_number v4 &&
     MathUtils.typeof_number v5 && MathUtils.typeof_number v6 = false →
     MathUtils.distance3d Math_sqrt Math_pow
       (MathUtils.Prim <$> (v1 :: v2 :: v3 :: v4 :: v5 :: v6 :: rest)) =
       Throw (TypeError "All coordinates must be numbers.")) ∧
  (∀ (x1 y1 z1 x2 y2 z2 : float) (rest : list jsval),
     MathUtils.distance3d Math_sqrt Math_pow
       (MathUtils.Prim <$> (VNum x1 :: VNum y1 :: VNum z1 :: VNum x2 :: VNum y2 ::
                            VNum z2 :: rest)) =
     if is_nan x1 || is_nan y1 || is_nan z1 || is_nan x2 || is_nan y2 || is_nan z2
     then Throw (Error "Coordinates cannot be NaN.")
     else Return (Math_sqrt (Math_pow (x2 - x1) 2 + Math_pow (y2 - y1) 2 +
                             Math_pow (z2 - z1) 2))).
Proof.
  split; [|split].
  - intros vs Hlen.
    do 6 (destruct vs as [|[] vs]; try reflexivity).
    simpl in Hlen. lia.
  - intros v1 v2 v3 v4 v5 v6 rest H.
    destruct v1; try reflexivity; destruct v2; try reflexivity;
      destruct v3; try reflexivity; destruct v4; try reflexivity;
      destruct v5; try reflexivity; destruct v6; try reflexivity.
    discriminate H.
  - intros x1 y1 z1 x2 y2 z2 rest. reflexivity.
Qed.

(** ** [FastMath] *)

Local Abbreviation number := (number_of StringToNumber).

Lemma ToNumber_null_as_zero (p : primitive) :
  ToNumber StringToNumber (null_as_zero p) = ToNumber StringToNumber p.
Proof. by destruct p as [[]| |]. Qed.

Lemma ToNumeric_null_as_zero (p : primitive) :
  ToNumeric StringToNumber (null_as_zero p) = ToNumeric StringToNumber p.
Proof. by destruct p as [[]| |]. Qed.

Lemma global_isNaN_null_as_zero (p : primitive) :
  global_isNaN StringToNumber (null_as_zero p) = global_isNaN StringToNumber p.
Proof. unfold global_isNaN. by rewrite ToNumber_null_as_zero. Qed.

Lemma minus_null_as_zero (p q : primitive) :
  minus StringToNumber (null_as_zero p) (null_as_zero q) = minus StringToNumber p q.
Proof. unfold minus. by rewrite !ToNumeric_null_as_zero. Qed.

Lemma distance2d_of_values (x1 y1 x2 y2 : jsval) :
  FastMath.distance2d Math_sqrt exponentiate StringToNumber x1 y1 x2 y2 =
    if is_nan (number x1) || is_nan (number y1) || is_nan (number x2) || is_nan (number y2)
    then Throw (Error "Coordinates cannot be NaN.")
    else Return (Math_sqrt (exponentiate (number x2 - number x1) 2 +
                            exponentiate (number y2 - number y1) 2)).
Proof.
  unfold FastMath.distance2d, global_isNaN, minus. simpl.
  destruct (is_nan (number x1)), (is_nan (number y1)), (is_nan (number x2)),
    (is_nan (number y2)); reflexivity.
Qed.

Lemma distance3d_of_values (x1 y1 z1 x2 y2 z2 : jsval) :
  FastMath.distance3d Math_sqrt exponentiate StringToNumber x1 y1 z1 x2 y2 z2 =
    if is_nan (number x1) || is_nan (number y1) || is_nan (number z1) ||
       is_nan (number x2) || is_nan (number y2) || is_nan (number z2)
    then Throw (Error "Coordinates cannot be NaN.")
    else Return (Math_sqrt (exponentiate (number x2 - number x1) 2 +
                            exponentiate (number y2 - number y1) 2 +
                            exponentiate (number z2 - number z1) 2)).
Proof.
  unfold FastMath.distance3d, global_isNaN, minus. simpl.
  destruct (is_nan (number x1)), (is_nan (number y1)), (is_nan (number z1)),
    (is_nan (number x2)), (is_nan (number y2)), (is_nan (number z2)); reflexivity.
Qed.

(** The checks of one argument after the other: a value of [jsval] is
    checked and the next argument is looked at unless it is [NaN]; a BigInt
    or a Symbol ends the call with a [TypeError]. *)
Ltac check_argument p :=
  destruct p as [?v|?n|?d];
    [ simpl; destruct (is_nan (number _)); simpl;
      [ right; eexists; split; [reflexivity | by left] | ]
    | right; eexists; split; [reflexivity | right; split; [by eexists | reflexivity]] .. ].

Ltac check_in_order p H :=
  destruct p as [?v|?n|?d]; simpl in H |- *;
    [ destruct (is_nan (number _)); simpl in H |- *; [congruence | ]
    | congruence .. ].

Lemma distance2d_rejected (x1 y1 x2 y2 : primitive) e :
  first_rejected StringToNumber [x1; y1; x2; y2] = Some e →
  FastMath.distance2d Math_sqrt exponentiate StringToNumber x1 y1 x2 y2 = Throw e.
Proof.
  intros H. unfold FastMath.distance2d, global_isNaN, minus.
  check_in_order x1 H. check_in_order y1 H. check_in_order x2 H. check_in_order y2 H.
  discriminate H.
Qed.

Lemma distance3d_rejected (x1 y1 z1 x2 y2 z2 : primitive) e :
  first_rejected StringToNumber [x1; y1; z1; x2; y2; z2] = Some e →
  FastMath.distance3d Math_sqrt exponentiate StringToNumber x1 y1 z1 x2 y2 z2 = Throw e.
Proof.
  intros H. unfold FastMath.distance3d, global_isNaN, minus.
  check_in_order x1 H. check_in_order y1 H. check_in_order z1 H.
  check_in_order x2 H. check_in_order y2 H. check_in_order z2 H.
  discriminate H.
Qed.

Lemma distance2d_outcome (x1 y1 x2 y2 : primitive) :
  (is_Val x1 && is_Val y1 && is_Val x2 && is_Val y2 = true ∧
   ∃ d, FastMath.distance2d Math_sqrt exponentiate StringToNumber x1 y1 x2 y2 = Return d) ∨
  (∃ e, FastMath.distance2d Math_sqrt exponentiate StringToNumber x1 y1 x2 y2 = Throw e ∧
        (e = Error "Coordinates cannot be NaN." ∨
         is_TypeError e ∧ is_Val x1 && is_Val y1 && is_Val x2 && is_Val y2 = false)).
Proof.
  unfold FastMath.distance2d, global_isNaN, minus.
  check_argument x1. check_argument y1. check_argument x2. check_argument y2.
  left. split; [done|]. eauto.
Qed.

Lemma distance3d_outcome (x1 y1 z1 x2 y2 z2 : primitive) :
  (is_Val x1 && is_Val y1 && is_Val z1 && is_Val x2 && is_Val y2 && is_Val z2 = true ∧
   ∃ d, FastMath.distance3d Math_sqrt exponentiate StringToNumber x1 y1 z1 x2 y2 z2 =
          Return d) ∨
  (∃ e, FastMath.distance3d Math_sqrt exponentiate StringToNumber x1 y1 z1 x2 y2 z2 =
          Throw e ∧
        (e = Error "Coordinates cannot be NaN." ∨
         is_TypeError e ∧
         is_Val x1 && is_Val y1 && is_Val z1 && is_Val x2 && is_Val y2 && is_Val z2 = false)).
Proof.
  unfold FastMath.distance3d, global_isNaN, minus.
  check_argument x1. check_argument y1. check_argument z1.
  check_argument x2. check_argument y2. check_argument z2.
  left. split; [done|]. eauto.
Qed.

(** X15: the distances of [FastMath] do not reject [null], although they
    are documented to: a [null] coordinate counts as the number 0, so a call
    is the same call with 0 in the place of every [null].  On arguments that
    are [undefined], [null], booleans, numbers or strings they throw the
    [NaN] error when an argument converts to [NaN] (as [undefined] does) and
    return the square root of the sum of the squares otherwise; they return
    on such arguments only, and the one other exception on primitive
    arguments is the [TypeError] of the conversion, for a BigInt or a
    Symbol.  The arguments are checked in their order: the first one that
    converts to [NaN], or is a BigInt or a Symbol, decides what is thrown. *)
Theorem FastMath_null_counts_as_zero :
  (∀ x1 y1 x2 y2 : primitive,
     FastMath.distance2d Math_sqrt exponentiate StringToNumber x1 y1 x2 y2 =
     FastMath.distance2d Math_sqrt exponentiate StringToNumber
       (null_as_zero x1) (null_as_zero y1) (null_as_zero x2) (null_as_zero y2)) ∧
  (∀ x1 y1 z1 x2 y2 z2 : primitive,
     FastMath.distance3d Math_sqrt exponentiate StringToNumber x1 y1 z1 x2 y2 z2 =
     FastMath.distance3d Math_sqrt exponentiate StringToNumber
       (null_as_zero x1) (null_as_zero y1) (null_as_zero z1)
       (null_as_zero x2) (null_as_zero y2) (null_as_zero z2)) ∧
  is_nan (number VNull) = false ∧
  is_nan (number VUndefined) = true ∧
  (∀ x1 y1 x2 y2 : jsval,
     FastMath.distance2d Math_sqrt exponentiate StringToNumber x1 y1 x2 y2 =
       if is_nan (number x1) || is_nan (number y1) ||
          is_nan (number x2) || is_nan (number y2)
       then Throw (Error "Coordinates cannot be NaN.")
       else Return (Math_sqrt (exponentiate (number x2 - number x1) 2 +
                               exponentiate (number y2 - number y1) 2))) ∧
  (∀ x1 y1 z1 x2 y2 z2 : jsval,
     FastMath.distance3d Math_sqrt exponentiate StringToNumber x1 y1 z1 x2 y2 z2 =
       if is_nan (number x1) || is_nan (number y1) || is_nan (number z1) ||
          is_nan (number x2) || is_nan (number y2) || is_nan (number z2)
       then Throw (Error "Coordinates cannot be NaN.")
       else Return (Math_sqrt (exponentiate (number x2 - number x1) 2 +
                               exponentiate (number y2 - number y1) 2 +
                               exponentiate (number z2 - number z1) 2))) ∧
  (∀ (x1 y1 x2 y2 : primitive) d,
     FastMath.distance2d Math_sqrt exponentiate StringToNumber x1 y1 x2 y2 = Return d →
     is_Val x1 && is_Val y1 && is_Val x2 && is_Val y2 = true) ∧
  (∀ (x1 y1 z1 x2 y2 z2 : primitive) d,
     FastMath.distance3d Math_sqrt exponentiate StringToNumber x1 y1 z1 x2 y2 z2 =
       Return d →
     is_Val x1 && is_Val y1 && is_Val z1 && is_Val x2 && is_Val y2 && is_Val z2 = true) ∧
  (∀ (x1 y1 x2 y2 : primitive) e,
     FastMath.distance2d Math_sqrt exponentiate StringToNumber x1 y1 x2 y2 = Throw e →
     e = Error "Coordinates cannot be NaN." ∨
     is_TypeError e ∧ is_Val x1 && is_Val y1 && is_Val x2 && is_Val y2 = false) ∧
  (∀ (x1 y1 z1 x2 y2 z2 : primitive) e,
     FastMath.distance3d Math_sqrt exponentiate StringToNumber x1 y1 z1 x2 y2 z2 =
       Throw e →
     e = Error "Coordinates cannot be NaN." ∨
     is_TypeError e ∧
     is_Val x1 && is_Val y1 && is_Val z1 && is_Val x2 && is_Val y2 && is_Val z2 = false) ∧
  (∀ (x1 y1 x2 y2 : primitive) e,
     first_rejected StringToNumber [x1; y1; x2; y2] = Some e →
     FastMath.distance2d Math_sqrt exponentiate StringToNumber x1 y1 x2 y2 = Throw e) ∧
  (∀ (x1 y1 z1 x2 y2 z2 : primitive) e,
     first_rejected StringToNumber [x1; y1; z1; x2; y2; z2] = Some e →
     FastMath.distance3d Math_sqrt exponentiate StringToNumber x1 y1 z1 x2 y2 z2 =
       Throw e).
Proof.
  split; [|split; [|split; [|split; [|split; [|split; [|split; [|split; [|split;
    [|split; [|split]]]]]]]]]].
  - intros. unfold FastMath.distance2d.
    by rewrite !global_isNaN_null_as_zero, !minus_null_as_zero.
  - intros. unfold FastMath.distance3d.
    by rewrite !global_isNaN_null_as_zero, !minus_null_as_zero.
  - reflexivity.
  - reflexivity.
  - apply distance2d_of_values.
  - apply distance3d_of_values.
  - intros x1 y1 x2 y2 d H.
    destruct (distance2d_outcome x1 y1 x2 y2) as [[? _]|(e & He & _)]; [done|].
    congruence.
  - intros x1 y1 z1 x2 y2 z2 d H.
    destruct (distance3d_outcome x1 y1 z1 x2 y2 z2) as [[? _]|(e & He & _)]; [done|].
    congruence.
  - intros x1 y1 x2 y2 e H.
    destruct (distance2d_outcome x1 y1 x2 y2) as [[_ [d Hd]]|(e' & He & Hcases)];
      [congruence|].
    assert (e' = e) as <- by congruence. done.
  - intros x1 y1 z1 x2 y2 z2 e H.
    destruct (distance3d_outcome x1 y1 z1 x2 y2 z2) as [[_ [d Hd]]|(e' & He & Hcases)];
      [congruence|].
    assert (e' = e) as <- by congruence. done.
  - apply distance2d_rejected.
  - apply distance3d_rejected.
Qed.

(** ** The distances of the vectors *)

Lemma IVec2_distance_of_values (tx ty x y : jsval) :
  IVec2.distance Math_sqrt exponentiate StringToNumber (IVec2.mk tx ty) x y =
    Return (Math_sqrt (exponentiate (number x - number tx) 2 +
                       exponentiate (number y - number ty) 2)).
Proof. reflexivity. Qed.

Lemma IVec3_distance_of_values (tx ty tz x y z : jsval) :
  IVec3.distance Math_sqrt exponentiate StringToNumber (IVec3.mk tx ty tz) x y z =
    Return (Math_sqrt (exponentiate (number x - number tx) 2 +
                       exponentiate (number y - number ty) 2 +
                       exponentiate (number z - number tz) 2)).
Proof. reflexivity. Qed.

(** The difference of one coordinate and its square: two values of [jsval]
    give a number, anything else ends the call with a [TypeError]. *)
Ltac square_difference p q :=
  destruct p as [?v|?n|?d], q as [?v|?n|?d]; simpl;
    [ | right; eexists; split;
          [reflexivity | split; [by eexists | by rewrite ?andb_false_r]] .. ].

Lemma IVec2_distance_outcome (this : IVec2.t) (x y : primitive) :
  (is_Val (IVec2.x this) && is_Val (IVec2.y this) && is_Val x && is_Val y = true ∧
   ∃ d, IVec2.distance Math_sqrt exponentiate StringToNumber this x y = Return d) ∨
  (∃ e, IVec2.distance Math_sqrt exponentiate StringToNumber this x y = Throw e ∧
        is_TypeError e ∧
        is_Val (IVec2.x this) && is_Val (IVec2.y this) && is_Val x && is_Val y = false).
Proof.
  destruct this as [tx ty]. unfold IVec2.distance, minus. simpl.
  square_difference x tx. square_difference y ty.
  left. split; [done|]. eauto.
Qed.

Lemma IVec3_distance_outcome (this : IVec3.t) (x y z : primitive) :
  (is_Val (IVec3.x this) && is_Val (IVec3.y this) && is_Val (IVec3.z this) &&
   is_Val x && is_Val y && is_Val z = true ∧
   ∃ d, IVec3.distance Math_sqrt exponentiate StringToNumber this x y z = Return d) ∨
  (∃ e, IVec3.distance Math_sqrt exponentiate StringToNumber this x y z = Throw e ∧
        is_TypeError e ∧
        is_Val (IVec3.x this) && is_Val (IVec3.y this) && is_Val (IVec3.z this) &&
        is_Val x && is_Val y && is_Val z = false).
Proof.
  destruct this as [tx ty tz]. unfold IVec3.distance, minus. simpl.
  square_difference x tx. square_difference y ty. square_difference z tz.
  left. split; [done|]. eauto.
Qed.

(** X16: the [distance] of an [IVec2] or [IVec3] to a point makes no check.
    For coordinates and arguments that are [undefined], [null], booleans,
    numbers or strings it always returns the square root of the sum of the
    squares of the converted differences, which is what
    [FastMath.distance2d] or [FastMath.distance3d] returns for the vector's
    coordinates and the point whenever that function returns (where it throws
    its [NaN] error, [distance] returns all the same).  On primitive operands
    the one exception of [distance] is the engine's [TypeError], thrown
    exactly when a coordinate or an argument is a BigInt or a Symbol. *)
Theorem IVec_distance_is_FastMath_distance :
  (∀ (this : IVec2.t) (x y : primitive) d,
     FastMath.distance2d Math_sqrt exponentiate StringToNumber
       (IVec2.x this) (IVec2.y this) x y = Return d →
     IVec2.distance Math_sqrt exponentiate StringToNumber this x y = Return d) ∧
  (∀ (this : IVec3.t) (x y z : primitive) d,
     FastMath.distance3d Math_sqrt exponentiate StringToNumber
       (IVec3.x this) (IVec3.y this) (IVec3.z this) x y z = Return d →
     IVec3.distance Math_sqrt exponentiate StringToNumber this x y z = Return d) ∧
  (∀ tx ty x y : jsval,
     IVec2.distance Math_sqrt exponentiate StringToNumber (IVec2.mk tx ty) x y =
       Return (Math_sqrt (exponentiate (number x - number tx) 2 +
                          exponentiate (number y - number ty) 2))) ∧
  (∀ tx ty tz x y z : jsval,
     IVec3.distance Math_sqrt exponentiate StringToNumber (IVec3.mk tx ty tz) x y z =
       Return (Math_sqrt (exponentiate (number x - number tx) 2 +
                          exponentiate (number y - number ty) 2 +
                          exponentiate (number z - number tz) 2))) ∧
  (∀ (this : IVec2.t) (x y : primitive),
     is_Val (IVec2.x this) && is_Val (IVec2.y this) && is_Val x && is_Val y = false ↔
     ∃ e, IVec2.distance Math_sqrt exponentiate StringToNumber this x y = Throw e) ∧
  (∀ (this : IVec3.t) (x y z : primitive),
     is_Val (IVec3.x this) && is_Val (IVec3.y this) && is_Val (IVec3.z this) &&
     is_Val x && is_Val y && is_Val z = false ↔
     ∃ e, IVec3.distance Math_sqrt exponentiate StringToNumber this x y z = Throw e) ∧
  (∀ (this : IVec2.t) (x y : primitive) e,
     IVec2.distance Math_sqrt exponentiate StringToNumber this x y = Throw e →
     is_TypeError e) ∧
  (∀ (this : IVec3.t) (x y z : primitive) e,
     IVec3.distance Math_sqrt exponentiate StringToNumber this x y z = Throw e →
     is_TypeError e).
Proof.
  split; [|split; [|split; [|split; [|split; [|split; [|split]]]]]].
  - intros [tx ty] x y d H. simpl in H.
    destruct (distance2d_outcome tx ty x y) as [[Hv _]|(e & He & _)]; [|congruence].
    destruct tx, ty, x, y; try discriminate Hv.
    rewrite distance2d_of_values in H. rewrite IVec2_distance_of_values.
    destruct (_ || _); congruence.
  - intros [tx ty tz] x y z d H. simpl in H.
    destruct (distance3d_outcome tx ty tz x y z) as [[Hv _]|(e & He & _)]; [|congruence].
    destruct tx, ty, tz, x, y, z; try discriminate Hv.
    rewrite distance3d_of_values in H. rewrite IVec3_distance_of_values.
    destruct (_ || _); congruence.
  - apply IVec2_distance_of_values.
  - apply IVec3_distance_of_values.
  - intros this x y.
    destruct (IVec2_distance_outcome this x y) as [[Hv [d Hd]]|(e & He & _ & Hv)].
    + rewrite Hv, Hd. split; [done|]. by intros [e He].
    + rewrite Hv. split; [by exists e|done].
  - intros this x y z.
    destruct (IVec3_distance_outcome this x y z) as [[Hv [d Hd]]|(e & He & _ & Hv)].
    + rewrite Hv, Hd. split; [done|]. by intros [e He].
    + rewrite Hv. split; [by exists e|done].
  - intros this x y e H.
    destruct (IVec2_distance_outcome this x y) as [[_ [d Hd]]|(e' & He & Ht & _)];
      [congruence|].
    assert (e' = e) as <- by congruence. done.
  - intros this x y z e H.
    destruct (IVec3_distance_outcome this x y z) as [[_ [d Hd]]|(e' & He & Ht & _)];
      [congruence|].
    assert (e' = e) as <- by congruence. done.
Qed.

(** X17: when [Math.pow] and the operator [**] compute the same, the two
    [distance3d] agree on six numbers: [MathUtils.distance3d] and
    [FastMath.distance3d] return the same number, or throw the same [NaN]
    error. *)
Theorem distance3d_agree (x1 y1 z1 x2 y2 z2 : float) :
  (∀ b e, Math_pow b e = exponentiate b e) →
  MathUtils.distance3d Math_sqrt Math_pow
    [MathUtils.Prim (VNum x1); MathUtils.Prim (VNum y1); MathUtils.Prim (VNum z1);
     MathUtils.Prim (VNum x2); MathUtils.Prim (VNum y2); MathUtils.Prim (VNum z2)] =
  FastMath.distance3d Math_sqrt exponentiate StringToNumber
    (VNum x1) (VNum y1) (VNum z1) (VNum x2) (VNum y2) (VNum z2).
Proof.
  intros Hpow. rewrite distance3d_of_values.
  unfold MathUtils.distance3d. simpl. unfold MathUtils.isNaN.
  by rewrite !Hpow.
Qed.

End distance_facts.

Lemma FastMath_null_counts_as_zero_witness :
  FastMath.distance2d PrimFloat.sqrt (λ b e, b * b)%float (λ _, nan)
    VNull VNull (VNum 3) (VNum 4) = Return 5%float ∧
  FastMath.distance2d PrimFloat.sqrt (λ b e, b * b)%float (λ _, nan)
    (VNum 1) VUndefined (BigInt 1) (VNum 4) = Throw (Error "Coordinates cannot be NaN.") ∧
  FastMath.distance2d PrimFloat.sqrt (λ b e, b * b)%float (λ _, nan)
    (VNum 1) (BigInt 1) VUndefined (VNum 4) =
    Throw (TypeError "Cannot convert a BigInt value to a number").
Proof.
  destruct (FastMath_null_counts_as_zero PrimFloat.sqrt (λ b e, b * b)%float (λ _, nan))
    as (Hnull & _ & _ & _ & _ & _ & _ & _ & _ & _ & Hrej & _).
  split; [|split].
  - rewrite (Hnull VNull VNull (VNum 3) (VNum 4)). reflexivity.
  - apply Hrej. reflexivity.
  - apply Hrej. reflexivity.
Defined.

Lemma IVec_distance_witness :
  IVec2.distance PrimFloat.sqrt (λ b e, b * b)%float (λ _, nan)
    (IVec2.mk (VNum 3) (VNum 4)) (VNum 0) (VNum 0) = Return 5%float.
Proof.
  apply (proj1 (IVec_distance_is_FastMath_distance PrimFloat.sqrt (λ b e, b * b)%float
                  (λ _, nan)) (IVec2.mk (VNum 3) (VNum 4)) (VNum 0) (VNum 0)).
  reflexivity.
Defined.

Lemma distance3d_agree_witness :
  MathUtils.distance3d PrimFloat.sqrt (λ b e, b * b)%float
    [MathUtils.Prim (VNum 1); MathUtils.Prim (VNum 2); MathUtils.Prim (VNum 3);
     MathUtils.Prim (VNum 4); MathUtils.Prim (VNum 6); MathUtils.Prim (VNum 3)] =
  FastMath.distance3d PrimFloat.sqrt (λ b e, b * b)%float (λ _, nan)
    (VNum 1) (VNum 2) (VNum 3) (VNum 4) (VNum 6) (VNum 3).
Proof.
  apply (distance3d_agree PrimFloat.sqrt (λ b e, b * b)%float (λ b e, b * b)%float
           (λ _, nan)).
  reflexivity.
Defined.

(** * Facts about [IBlock] and [IDimension] *)

Section block_facts.
Import Eff.

Context (H : host).

Implicit Types (w : World H) (a b c d : value).

(** ** The parameters of [new IBlock] *)

Lemma given_not_null v d : given v = true → not_null (value_or_default v d) = true.
Proof. by destruct v as [[]| | |]. Qed.

Lemma given_value_or_default v d : given v = true → value_or_default v d = v.
Proof. by destruct v as [[]| | |]. Qed.


(** X19: called with three numbers [(a, b, c)], as the documentation does
    ([new IBlock(42, 102, -83)]), the constructor takes [a] for the
    dimension and reads the coordinates off the number [b]: when it
    returns, [x], [y], [z] and [dimension] of the block are all [undefined],
    and the host was asked for the block at the location
    [{x: undefined, y: undefined, z: undefined}] of the dimension [a]. *)
Theorem IBlock_of_three_numbers (a b c : float) w this w' :
  IBlock.constructor H (Prim (VNum a)) (Prim (VNum b)) (Prim (VNum c)) undefined w =
    (Return this, w') →
  IBlock.x H this = undefined ∧ IBlock.y H this = undefined ∧
  IBlock.z H this = undefined ∧ IBlock.dimension H this = undefined ∧
  ∃ hb, IBlock.host_getBlock H (Prim (VNum a)) (Plain undefined undefined undefined) w =
          (Return (Some hb), w').
Proof.
  unfold IBlock.constructor, bind, ret, of_outcome. simpl.
  destruct (IBlock.host_getBlock H _ _ w) as [[[hb|]|e] w1] eqn:Hg; simpl;
    [|done..].
  intros [= <- <-]. simpl. repeat split. by exists hb.
Qed.

(** ** [up] and [down] *)

(** X20: [up] and [down] know the types ["isoblock"], ["block"] and
    ["vector"] only: with any other type, among them ["iblock"], which the
    error message names as valid, they throw the invalid-type error and
    change neither the block nor the world; with ["vector"] they do not ask
    the host and change the height of the block itself. *)
Theorem IBlock_up_down_types (o : IBlock.t H) w :
  known_type (Prim (VStr "iblock")) = false ∧
  (∀ type, known_type type = false →
     IBlock.down H type (o, w) =
       (Throw (Error "Invalid type. Must be 'block', 'vector', or 'iblock'."), (o, w)) ∧
     IBlock.up H type (o, w) =
       (Throw (Error "Invalid type. Must be 'block', 'vector', or 'iblock'."), (o, w))) ∧
  IBlock.down H (Prim (VStr "vector")) (o, w) =
    (Return (IBlock.NeighbourVector H
               (Vec3 (IBlock.x H o) (minus_one H (IBlock.y H o)) (IBlock.z H o))),
     (IBlock.set_y H (minus_one H (IBlock.y H o)) o, w)) ∧
  IBlock.up H (Prim (VStr "vector")) (o, w) =
    (Return (IBlock.NeighbourVector H
               (Vec3 (IBlock.x H o) (plus_one H (IBlock.y H o)) (IBlock.z H o))),
     (IBlock.set_y H (plus_one H (IBlock.y H o)) o, w)).
Proof.
  split; [reflexivity|]. split; [|split; reflexivity].
  intros type Hk. unfold known_type in Hk.
  unfold IBlock.down, IBlock.up, IBlock.move, bind, IBlock.this, throw. simpl.
  destruct (value_or_default type (Prim (VStr "block"))) as [[| | | |s]| | |]; try done.
  apply orb_false_elim in Hk as [Hk H3]. apply orb_false_elim in Hk as [H1 H2].
  by rewrite H1, H2, H3.
Qed.

(** ** [IDimension] *)

Lemma getBlock_throws vec3 y z (s : IDimension.t H * World H) :
  ∃ e, (IDimension.getBlock H vec3 y z s).1 = Throw e.
Proof.
  unfold IDimension.getBlock, bind at 1.
  destruct (IDimension.to_IVec3 H vec3 y z s) as [[v|e] s1]; [|by exists e].
  unfold bind, IDimension.this, of_outcome, IDimension.on_world. simpl.
  destruct (read_x v) as [vx|e]; [|by exists e]. simpl.
  destruct (read_y v) as [vy|e]; [|by exists e]. simpl.
  destruct (read_z v) as [vz|e]; [|by exists e]. simpl.
  destruct (IBlock.constructor H vx vy vz undefined s1.2) as [[blk|e] w1];
    [|by exists e]. simpl.
  destruct (IBlock.updateBlock H _) as [[[]|e] bw]; simpl; eauto.
Qed.

(** X21: [getBlock] of an [IDimension] never returns: whatever the
    arguments and whatever the host answers, the call ends in an exception
    (when nothing else throws, the assignment to the constant [block] does);
    and so do [getBlockType] and [isBlockAir], which call it. *)
Theorem IDimension_getBlock_never_returns vec3 y z (s : IDimension.t H * World H) :
  (∃ e, (IDimension.getBlock H vec3 y z s).1 = Throw e) ∧
  (∃ e, (IDimension.getBlockType H vec3 y z s).1 = Throw e) ∧
  (∃ e, (IDimension.isBlockAir H vec3 y z s).1 = Throw e).
Proof.
  split; [apply getBlock_throws|]. split.
  - unfold IDimension.getBlockType, bind at 1.
    destruct (IDimension.to_IVec3 H vec3 y z s) as [[v|e] s1]; [|by exists e].
    unfold bind at 1.
    destruct (getBlock_throws v undefined undefined s1) as [e He].
    destruct (IDimension.getBlock H v undefined undefined s1) as [[r|e'] s2];
      simpl in *; [done|by exists e'].
  - unfold IDimension.isBlockAir, bind at 1.
    destruct (IDimension.to_IVec3 H vec3 y z s) as [[v|e] s1]; [|by exists e].
    unfold bind at 1.
    destruct (getBlock_throws v undefined undefined s1) as [e He].
    destruct (IDimension.getBlock H v undefined undefined s1) as [[r|e'] s2];
      simpl in *; [done|by exists e'].
Qed.

Lemma prefix_minecraft (s : string) : String.prefix "minecraft:" ("minecraft:" +:+ s) = true.
Proof. simpl. by destruct s. Qed.

Lemma block_id_prefix (s : string) : String.prefix "minecraft:" (IDimension.block_id s) = true.
Proof.
  unfold IDimension.block_id.
  destruct (String.prefix "minecraft:" s) eqn:Hp; [done|]. apply prefix_minecraft.
Qed.

Lemma block_id_idempotent (s : string) :
  IDimension.block_id (IDimension.block_id s) = IDimension.block_id s.
Proof.
  unfold IDimension.block_id at 1. by rewrite block_id_prefix.
Qed.

(** X22: [setBlock] of an [IDimension] puts [minecraft:] in front of a
    block id that does not start with it, also in front of an id of another
    namespace, so the id it works with always starts with [minecraft:] and
    a call with an id and the call with the prefixed id are the same; a
    block that is not a string throws the error before the host is asked,
    and nothing changes. *)
Theorem IDimension_setBlock_block_id (block : string) vec3 y z
    (s : IDimension.t H * World H) :
  IDimension.setBlock H (Prim (VStr block)) vec3 y z s =
    IDimension.setBlock H (Prim (VStr (IDimension.block_id block))) vec3 y z s ∧
  String.prefix "minecraft:" (IDimension.block_id block) = true ∧
  (String.prefix "minecraft:" block = true → IDimension.block_id block = block) ∧
  (String.prefix "minecraft:" block = false →
     IDimension.block_id block = "minecraft:" +:+ block) ∧
  ∀ v, IDimension.as_string v = None →
    IDimension.setBlock H v vec3 y z s =
      (Throw (Error
         "Block must be represented as a string (block id), e.g., 'minecraft:stone'."),
       s).
Proof.
  split; [|split; [|split; [|split]]].
  - unfold IDimension.setBlock. simpl. by rewrite block_id_idempotent.
  - apply block_id_prefix.
  - intros Hp. unfold IDimension.block_id. by rewrite Hp.
  - intros Hp. unfold IDimension.block_id. by rewrite Hp.
  - intros v Hv. unfold IDimension.setBlock. by rewrite Hv.
Qed.

(** X23: the three ways to give [setBlock] a position are the same call:
    three coordinates, an object literal with the coordinates, and an
    [IVec3]. *)
Theorem IDimension_setBlock_positions block a b c (s : IDimension.t H * World H) :
  given b = true → given c = true →
  IDimension.setBlock H block a b c s =
    IDimension.setBlock H block (Plain a b c) undefined undefined s ∧
  IDimension.setBlock H block (Vec3 a b c) undefined undefined s =
    IDimension.setBlock H block (Plain a b c) undefined undefined s.
Proof.
  intros Hb Hc. unfold IDimension.setBlock.
  rewrite !(given_value_or_default b), !(given_value_or_default c) by done.
  assert (not_null b = true) as -> by (by destruct b as [[]| | |]).
  assert (not_null c = true) as -> by (by destruct c as [[]| | |]).
  done.
Qed.

(** X24: with a string as block and a position given by its coordinates,
    [setBlock] asks the host once, with the prefixed id first and the
    location second; it returns when the host does, and when the host throws
    it throws an [Error] whose message starts with [Failed to set block at]
    and ends with the message of the host.  Without a position the call
    throws a [TypeError] and the world stays as it is. *)
Theorem IDimension_setBlock_outcome (block : string) a b c (o : IDimension.t H) w dim :
  IDimension.dimension H o = Some dim →
  IDimension.setBlock H (Prim (VStr block)) (Plain a b c) undefined undefined (o, w) =
    match dimension_setBlockType H dim (Prim (VStr (IDimension.block_id block)))
            (Plain a b c) w with
    | (Return _, w') => (Return (), (o, w'))
    | (Throw error, w') =>
        (Throw (Error ("Failed to set block at (" +:+ ToString H a +:+ ", " +:+
                       ToString H b +:+ ", " +:+ ToString H c +:+
                       ") in dimension '" +:+ IDimension.id H o +:+ "': " +:+
                       match error with Error m | TypeError m => m end)),
         (o, w'))
    end ∧
  IDimension.setBlock H (Prim (VStr block)) undefined undefined undefined (o, w) =
    (Throw (TypeError "Cannot read properties of undefined"), (o, w)).
Proof.
  intros Hd. split.
  - unfold IDimension.setBlock, try_catch, bind, IDimension.this, defined,
      of_outcome, IDimension.on_world, ret, throw. simpl. rewrite Hd. simpl.
    destruct (dimension_setBlockType H dim _ _ w) as [[[]|e] w1]; done.
  - unfold IDimension.setBlock, try_catch, bind, IDimension.this, defined,
      of_outcome, IDimension.on_world, ret, throw. simpl. by rewrite Hd.
Qed.

(** X25: [setDimension] changes the object only when it returns: when it
    throws, [dimension] and [id] are what they were; it throws for [null],
    for every value that is not a string, and for a string for which the
    host has no dimension; when it returns, [id] is the given string. *)
Theorem IDimension_setDimension_all_or_nothing key (o : IDimension.t H) w :
  (∀ e, (IDimension.setDimension H key (o, w)).1 = Throw e →
        (IDimension.setDimension H key (o, w)).2.1 = o) ∧
  (IDimension.as_string key = None →
     ∃ e, IDimension.setDimension H key (o, w) = (Throw (Error e), (o, w))) ∧
  ((IDimension.setDimension H key (o, w)).1 = Return () →
     key = Prim (VStr (IDimension.id H (IDimension.setDimension H key (o, w)).2.1))).
Proof.
  unfold IDimension.setDimension.
  destruct key as [[| | | |k]| | |]; simpl;
    try (split; [done|]; split; [by eexists|done]).
  unfold bind, IDimension.on_world, IDimension.this, IDimension.assign, throw. simpl.
  destruct (world_getDimension H (Prim (VStr k)) w) as [[[d|]|e] w1]; simpl;
    [|by repeat split..].
  destruct (world_getDimension H (Prim (VStr k)) w1) as [[d'|e] w2]; simpl;
    by repeat split.
Qed.

(** X26: [updateBlock] of an [IBlock] is not all or nothing: when the host
    answers [undefined] for the block, the call throws a [TypeError], the
    field [block] is [undefined] by then, and [type] and [isAir] still hold
    what they held. *)
Theorem IBlock_updateBlock_undefined (o : IBlock.t H) w w' :
  IBlock.host_getBlock H (IBlock.dimension H o)
    (Plain (IBlock.x H o) (IBlock.y H o) (IBlock.z H o)) w = (Return None, w') →
  IBlock.updateBlock H (o, w) =
    (Throw (TypeError "Cannot read properties of undefined"),
     (IBlock.set_block H None o, w')) ∧
  IBlock.type H (IBlock.set_block H None o) = IBlock.type H o ∧
  IBlock.isAir H (IBlock.set_block H None o) = IBlock.isAir H o.
Proof.
  intros Hg. split; [|done].
  unfold IBlock.updateBlock, bind, IBlock.this, IBlock.on_world, IBlock.assign,
    defined, throw. simpl. by rewrite Hg.
Qed.

End block_facts.


Lemma IBlock_of_three_numbers_witness :
  ∃ this,
    IBlock.constructor stone_host (Prim (VNum 42)) (Prim (VNum 102)) (Prim (VNum (-83)))
      undefined () = (Return this, ()) ∧
    IBlock.x stone_host this = undefined ∧
    IBlock.y stone_host this = undefined ∧
    IBlock.z stone_host this = undefined.
Proof.
  eexists. split; [vm_compute; reflexivity|].
  destruct (IBlock_of_three_numbers stone_host 42 102 (-83) () _ () eq_refl)
    as (Hx & Hy & Hz & _).
  split; [exact Hx|]. split; [exact Hy | exact Hz].
Defined.

Lemma IDimension_setBlock_positions_witness :
  let s := (IDimension.mk stone_host (Some ()) "overworld", ()) in
  IDimension.setBlock stone_host (Prim (VStr "stone"))
    (Prim (VNum 0)) (Prim (VNum 64)) (Prim (VNum 0)) s =
  IDimension.setBlock stone_host (Prim (VStr "stone"))
    (Plain (Prim (VNum 0)) (Prim (VNum 64)) (Prim (VNum 0))) undefined undefined s.
Proof.
  intros s.
  apply (proj1 (IDimension_setBlock_positions stone_host (Prim (VStr "stone"))
                  (Prim (VNum 0)) (Prim (VNum 64)) (Prim (VNum 0)) s eq_refl eq_refl)).
Defined.

Lemma IDimension_setBlock_outcome_witness :
  let o := IDimension.mk refusing_host (Some ()) "overworld" in
  IDimension.setBlock refusing_host (Prim (VStr "stone"))
    (Plain (Prim (VNum 0)) (Prim (VNum 64)) (Prim (VNum 0))) undefined undefined (o, ()) =
    (Throw (Error "Failed to set block at (?, ?, ?) in dimension 'overworld': refused"),
     (o, ())).
Proof.
  intros o.
  apply (proj1 (IDimension_setBlock_outcome refusing_host "stone"
                  (Prim (VNum 0)) (Prim (VNum 64)) (Prim (VNum 0)) o () () eq_refl)).
Defined.

Lemma IBlock_updateBlock_undefined_witness :
  let o := IBlock.mk refusing_host undefined undefined undefined undefined undefined
             (Some ()) (Prim (VStr "minecraft:stone")) (Prim (VBool false)) (Prim (VNum 0)) in
  IBlock.updateBlock refusing_host (o, ()) =
    (Throw (TypeError "Cannot read properties of undefined"),
     (IBlock.set_block refusing_host None o, ())).
Proof.
  intros o.
  apply (proj1 (IBlock_updateBlock_undefined refusing_host o () () eq_refl)).
Defined.
